(** * exif-search-mcp: the metadata filter-and-copy engine of [src/cli.ts]

    A shallow embedding of the functions of [src/cli.ts] and the proofs of
    the properties its specification states about them.

    Modelling conventions.
    - A JavaScript string is the list of its UTF-16 code units ([jsstring]);
      [js] turns an ASCII literal into one.  Comparison with [<] and [>] is
      the lexicographic order on code units, [\s] and [trim] use the
      ECMAScript WhiteSpace and LineTerminator code units, [\d] is [0-9].
    - A JavaScript number that arrives through JSON (record fields, filter
      bounds) is the exact rational value of the double ([Q]); an optional
      field is an [option].  Every finite double is a rational, and the
      loop only compares and negates the numbers it reads, so nothing is
      lost there.
    - [haversineMeters] computes in IEEE binary64, with rounding and NaN:
      its numbers are Rocq's primitive floats, [Math.sqrt] is the IEEE
      square root, and [Math.sin], [Math.cos], [Math.atan2] and the power
      operator, which ECMAScript leaves to the implementation, are
      operations of the class [Platform].  The same formula over the real
      numbers, [haversine_exact], is kept beside it for comparison.
    - The file system, the clock, the extraction tool and the library
      functions ([path.join], [path.basename], [toLowerCase]) are
      operations of the class [Platform] too; [filterAndCopy] threads the
      state of the world through them and may fail. *)

From Stdlib Require Import Floats.
From Stdlib Require Import String Ascii.
From Stdlib Require Import List NArith ZArith QArith Reals Qreals Lra Lia Bool.
Import ListNotations.

(* ================================================================= *)
(** ** JavaScript strings *)

Definition codeunit := N.
Definition jsstring := list codeunit.

Definition js (s : string) : jsstring :=
  map N_of_ascii (list_ascii_of_string s).

Definition hyphen : codeunit := 45%N.

(** The code units matched by [\s] and removed by [trim]:
    TAB, LF, VT, FF, CR, SP, NBSP, U+1680, U+2000..U+200A, U+2028, U+2029,
    U+202F, U+205F, U+3000 and U+FEFF. *)
Definition is_space (c : codeunit) : bool :=
  ((9 <=? c) && (c <=? 13) || (c =? 32) || (c =? 160) || (c =? 5760)
   || (8192 <=? c) && (c <=? 8202) || (c =? 8232) || (c =? 8233)
   || (c =? 8239) || (c =? 8287) || (c =? 12288) || (c =? 65279))%N.

(** [\d] *)
Definition is_digit (c : codeunit) : bool := ((48 <=? c) && (c <=? 57))%N.

Definition is_hyphen (c : codeunit) : bool := (c =? hyphen)%N.

Fixpoint str_eqb (a b : jsstring) : bool :=
  match a, b with
  | [], [] => true
  | x :: a', y :: b' => (x =? y)%N && str_eqb a' b'
  | _, _ => false
  end.

(** [a < b] on strings: the first differing code unit decides, a proper
    prefix is smaller. *)
Fixpoint str_ltb (a b : jsstring) : bool :=
  match a, b with
  | _, [] => false
  | [], _ :: _ => true
  | x :: a', y :: b' =>
      if (x <? y)%N then true
      else if (y <? x)%N then false
      else str_ltb a' b'
  end.

(** [a > b] is [b < a]. *)
Definition str_gtb (a b : jsstring) : bool := str_ltb b a.

(** [o !== undefined] *)
Definition is_some {A : Type} (o : option A) : bool :=
  match o with Some _ => true | None => false end.

(** A string is truthy when it is not empty; [undefined] is falsy. *)
Definition truthy (o : option jsstring) : bool :=
  match o with
  | Some (_ :: _) => true
  | _ => false
  end.

(** [o || s] with the empty string for [s] *)
Definition or_empty (o : option jsstring) : jsstring :=
  match o with
  | Some s => s
  | None => []
  end.

Fixpoint dropWhile (p : codeunit -> bool) (s : jsstring) : jsstring :=
  match s with
  | [] => []
  | c :: r => if p c then dropWhile p r else s
  end.

(** [s.trim()] *)
Definition trim (s : jsstring) : jsstring :=
  rev (dropWhile is_space (rev (dropWhile is_space s))).

Fixpoint startsWith (s p : jsstring) : bool :=
  match p, s with
  | [], _ => true
  | _ :: _, [] => false
  | y :: p', x :: s' => (x =? y)%N && startsWith s' p'
  end.

(** [s.includes(needle)] *)
Fixpoint includes (s needle : jsstring) : bool :=
  startsWith s needle ||
  match s with
  | [] => false
  | _ :: r => includes r needle
  end.

(** [s.split(ch)] for a separator of one code unit: never empty. *)
Fixpoint split (ch : codeunit) (s : jsstring) : list jsstring :=
  match s with
  | [] => [[]]
  | c :: r =>
      if (c =? ch)%N then [] :: split ch r
      else match split ch r with
           | p :: ps => (c :: p) :: ps
           | [] => [[c]]
           end
  end.

(** [parts.join(sep)] *)
Fixpoint join (sep : jsstring) (parts : list jsstring) : jsstring :=
  match parts with
  | [] => []
  | [p] => p
  | p :: ps => p ++ sep ++ join sep ps
  end.

(** [s.replace(/\s+/g, "-")]: scanning from the left, a white-space code
    unit starts a match, the greedy [+] takes the rest of the run
    ([skip_spaces]) and one hyphen is written for it. *)
Fixpoint replace_spaces (s : jsstring) : jsstring :=
  match s with
  | [] => []
  | c :: r => if is_space c then hyphen :: skip_spaces r else c :: replace_spaces r
  end
with skip_spaces (s : jsstring) : jsstring :=
  match s with
  | [] => []
  | c :: r => if is_space c then skip_spaces r else c :: replace_spaces r
  end.

Definition starts_with_hyphen (s : jsstring) : bool :=
  match s with
  | c :: _ => is_hyphen c
  | [] => false
  end.

(** [s.replace(/--+/g, "-")]: a match needs two hyphens in a row; the
    greedy [-+] then takes every hyphen that follows ([skip_hyphens]). *)
Fixpoint replace_hyphens (s : jsstring) : jsstring :=
  match s with
  | [] => []
  | c :: r =>
      if is_hyphen c && starts_with_hyphen r
      then hyphen :: skip_hyphens r
      else c :: replace_hyphens r
  end
with skip_hyphens (s : jsstring) : jsstring :=
  match s with
  | [] => []
  | c :: r => if is_hyphen c then skip_hyphens r else c :: replace_hyphens r
  end.

(* ================================================================= *)
(** ** promptSlug *)

(** The nine characters of the loop, in its order: slash, backslash, colon,
    asterisk, question mark, double quote, less-than, greater-than, bar. *)
Definition reserved : list codeunit :=
  [47; 92; 58; 42; 63; 34; 60; 62; 124]%N.

Definition promptSlug (s : jsstring) : jsstring :=
  let v := replace_spaces s in
  let v := fold_left (fun v ch => join [hyphen] (split ch v)) reserved v in
  replace_hyphens v.

(** The slug algorithm in the words of the specification.  [runs p s] cuts
    [s] into its maximal runs of code units on which [p] is constant, each
    with the value of [p] on it. *)
Fixpoint runs (p : codeunit -> bool) (s : jsstring) : list (bool * jsstring) :=
  match s with
  | [] => []
  | c :: r =>
      match runs p r with
      | (b, run) :: rest =>
          if Bool.eqb (p c) b then (b, c :: run) :: rest
          else (p c, [c]) :: (b, run) :: rest
      | [] => [(p c, [c])]
      end
  end.

(** The first code unit of [s] is in the class [p]. *)
Definition head_satisfies (p : codeunit -> bool) (s : jsstring) : bool :=
  match s with
  | c :: _ => p c
  | [] => false
  end.

(** What [v.split(ch).join(hyphen)] does to one code unit. *)
Definition substitute (ch c : codeunit) : codeunit :=
  if (c =? ch)%N then hyphen else c.

Definition rewrite_runs (p : codeunit -> bool)
    (g : jsstring -> jsstring) (s : jsstring) : jsstring :=
  concat (map (fun br : bool * jsstring => if fst br then g (snd br) else snd br) (runs p s)).

(** (a) every maximal run of white space becomes one hyphen *)
Definition slug_step_a (s : jsstring) : jsstring :=
  rewrite_runs is_space (fun _ => [hyphen]) s.

Definition is_reserved (c : codeunit) : bool := existsb (N.eqb c) reserved.

(** (b) each reserved character becomes a hyphen, one by one *)
Definition slug_step_b (s : jsstring) : jsstring :=
  map (fun c => if is_reserved c then hyphen else c) s.

(** (c) every run of two or more hyphens becomes one hyphen *)
Definition slug_step_c (s : jsstring) : jsstring :=
  rewrite_runs is_hyphen
    (fun run => if (2 <=? length run)%nat then [hyphen] else run) s.

Definition slug_reference (s : jsstring) : jsstring :=
  slug_step_c (slug_step_b (slug_step_a s)).

Fixpoint has_double_hyphen (s : jsstring) : bool :=
  match s with
  | [] => false
  | c :: r => is_hyphen c && starts_with_hyphen r || has_double_hyphen r
  end.

(** Already-clean input: no white space, no reserved character, no two
    hyphens in a row. *)
Definition clean (s : jsstring) : bool :=
  forallb (fun c => negb (is_space c) && negb (is_reserved c)) s
  && negb (has_double_hyphen s).

(* ================================================================= *)
(** ** parseExifDateTime *)

Record ParsedDateTime := { dateStr : jsstring; hhmm : jsstring }.

Notation "x <- c ;; k" := (match c with Some x => k | None => None end)
  (at level 61, c at next level, right associativity).
Notation "' ( x , y ) <- c ;; k" :=
  (match c with Some (x, y) => k | None => None end)
  (at level 61, x name, y name, c at next level, right associativity).

(** [\d{n}] at the head of [s]: the digits matched and what is left. *)
Fixpoint digits (n : nat) (s : jsstring) : option (jsstring * jsstring) :=
  match n with
  | O => Some ([], s)
  | S n' =>
      match s with
      | c :: r =>
          if is_digit c then '(d, rest) <- digits n' r ;; Some (c :: d, rest)
          else None
      | [] => None
      end
  end.

(** One code unit of the class [p] at the head of [s]. *)
Definition char (p : codeunit -> bool) (s : jsstring) : option jsstring :=
  match s with
  | c :: r => if p c then Some r else None
  | [] => None
  end.

Definition colon : codeunit := 58%N.
Definition is_colon (c : codeunit) : bool := (c =? colon)%N.
(** [[ T]] *)
Definition is_sep (c : codeunit) : bool := ((c =? 32) || (c =? 84))%N.

(** [(?::(\d{2}))?$]: the end of the input, or a colon, two digits and the
    end of the input. *)
Definition seconds_then_end (s : jsstring) : option unit :=
  match s with
  | [] => Some tt
  | _ =>
      s <- char is_colon s ;;
      '(_, s) <- digits 2 s ;;
      match s with [] => Some tt | _ => None end
  end.

(** [dto.match(/^(\d{4}):(\d{2}):(\d{2})[ T](\d{2}):(\d{2})(?::(\d{2}))?$/)] *)
Definition parseExifDateTime (dto : jsstring) : option ParsedDateTime :=
  '(y, s) <- digits 4 dto ;;
  s <- char is_colon s ;;
  '(mo, s) <- digits 2 s ;;
  s <- char is_colon s ;;
  '(d, s) <- digits 2 s ;;
  s <- char is_sep s ;;
  '(hh, s) <- digits 2 s ;;
  s <- char is_colon s ;;
  '(mm, s) <- digits 2 s ;;
  _ <- seconds_then_end s ;;
  Some {| dateStr := y ++ [hyphen] ++ mo ++ [hyphen] ++ d;
          hhmm := hh ++ [colon] ++ mm |}.

(** The pattern in the words of the specification: [YYYY:MM:DD], a space
    or [T], [HH:MM] and an optional [:SS]. *)
Definition digit_string (n : nat) (x : jsstring) : Prop :=
  length x = n /\ Forall (fun c => is_digit c = true) x.

Definition exif_pattern (s : jsstring) : Prop :=
  exists y mo d sep hh mm tail,
    s = y ++ colon :: mo ++ colon :: d ++ sep :: hh ++ colon :: mm ++ tail
    /\ digit_string 4 y /\ digit_string 2 mo /\ digit_string 2 d
    /\ (sep = 32%N \/ sep = 84%N)
    /\ digit_string 2 hh /\ digit_string 2 mm
    /\ (tail = [] \/ exists ss, tail = colon :: ss /\ digit_string 2 ss).

(* ================================================================= *)
(** ** inDateRange, inTimeWindow, firstNonEmpty *)

(** [o && k(o)] for an optional string [o]. *)
Definition guard (o : option jsstring) (k : jsstring -> bool) : bool :=
  match o with
  | Some (c :: r) => k (c :: r)
  | _ => false
  end.

Definition inDateRange (dateStr : jsstring) (from to : option jsstring) : bool :=
  if negb (truthy from) && negb (truthy to) then true
  else if guard from (fun from => str_ltb dateStr from) then false
  else if guard to (fun to => str_gtb dateStr to) then false
  else true.

Definition inTimeWindow (hhmm : jsstring) (from to : option jsstring) : bool :=
  if negb (truthy from) && negb (truthy to) then true
  else if guard from (fun from => str_ltb hhmm from) then false
  else if guard to (fun to => str_gtb hhmm to) then false
  else true.

Fixpoint firstNonEmpty (vals : list (option jsstring)) : jsstring :=
  match vals with
  | [] => []
  | v :: rest =>
      if guard v (fun v => negb (str_eqb (trim v) [])) then or_empty v
      else firstNonEmpty rest
  end.

(** The lexicographic order on code units, as a relation. *)
Inductive lex_lt : jsstring -> jsstring -> Prop :=
| lex_lt_nil : forall y b, lex_lt [] (y :: b)
| lex_lt_head : forall x y a b, (x < y)%N -> lex_lt (x :: a) (y :: b)
| lex_lt_tail : forall x a b, lex_lt a b -> lex_lt (x :: a) (x :: b).

Definition lex_le (a b : jsstring) : Prop := a = b \/ lex_lt a b.

(* ================================================================= *)
(** ** Numbers *)

(** [a < b] on rationals. *)
Definition Qltb (a b : Q) : bool := (Qnum a * QDen b <? Qnum b * QDen a)%Z.
(** [a > b], [a <= b], [a >= b] *)
Definition Qgtb (a b : Q) : bool := Qltb b a.
Definition Qleb (a b : Q) : bool := Qle_bool a b.
Definition Qgeb (a b : Q) : bool := Qle_bool b a.

(** The double that the integer [z], and the rational [q], round to: the
    double itself when [q] is the value of one. *)
Definition Z2F (z : Z) : float :=
  SF2Prim (binary_normalize prec emax z 0 false).

Definition Q2F (q : Q) : float :=
  (Z2F (Qnum q) / Z2F (Zpos (Qden q)))%float.

(** The value of the finite double with sign [s], mantissa [m] and
    exponent [e]. *)
Definition finite_value (s : bool) (m : positive) (e : Z) : Q :=
  (inject_Z (if s then Zneg m else Zpos m) * Qpower 2 e)%Q.

(** [d > r] for a double [d] and a double of value [r]: false when [d] is
    NaN. *)
Definition number_gt (d : float) (r : Q) : bool :=
  match Prim2SF d with
  | S754_nan => false
  | S754_infinity s => negb s
  | S754_zero _ => Qltb r 0
  | S754_finite s m e => Qltb r (finite_value s m e)
  end.

(** [Math.PI] *)
Definition Math_PI : float := 0x1.921fb54442d18p+1%float.

(** The formula of [haversineMeters] over the real numbers, without
    rounding: [Math.atan2(y, x)], [toRad] and the distance. *)
Definition exact_atan2 (y x : R) : R :=
  if Rlt_dec 0 x then atan (y / x)
  else if Rlt_dec x 0 then
    if Rle_dec 0 y then atan (y / x) + PI else atan (y / x) - PI
  else if Rlt_dec 0 y then PI / 2
  else if Rlt_dec y 0 then - (PI / 2)
  else 0.

Definition exact_toRad (deg : R) : R := (deg * PI) / 180.

Definition haversine_exact (lat1 lon1 lat2 lon2 : R) : R :=
  let R0 := 6371000%R in
  let dLat := exact_toRad (lat2 - lat1) in
  let dLon := exact_toRad (lon2 - lon1) in
  let a := (sin (dLat / 2) ^ 2
            + cos (exact_toRad lat1) * cos (exact_toRad lat2)
              * sin (dLon / 2) ^ 2)%R in
  let c := (2 * exact_atan2 (sqrt a) (sqrt (1 - a)))%R in
  (R0 * c)%R.

(* ================================================================= *)
(** ** The data model *)

Record DateRange := { dr_from : option jsstring; dr_to : option jsstring }.
Record TimeOfDay := { tod_from : option jsstring; tod_to : option jsstring }.
Record IsoRange := { iso_min : option Q; iso_max : option Q }.
Record AltRange := { alt_min : option Q; alt_max : option Q }.
Record CameraModel := { make : option jsstring; model : option jsstring }.
Record Center := { lat : Q; lon : Q }.

(** [bbox] is [[minLon, minLat, maxLon, maxLat]]. *)
Record Location := {
  bbox : option (Q * Q * Q * Q);
  center : option Center;
  radius_m : option Q
}.

Record FilterAndCopyInput := {
  base_dir : option jsstring;
  output_root : option jsstring;
  original_prompt : jsstring;
  date_range : option DateRange;
  time_of_day : option TimeOfDay;
  iso : option IsoRange;
  artist : option jsstring;
  camera : option CameraModel;
  location : option Location;
  altitude : option AltRange
}.

(** What the schema [FilterAndCopyInput] demands beyond the types:
    [base_dir] has at least one code unit and [radius_m] is positive. *)
Definition Location_valid (l : Location) : Prop :=
  match radius_m l with
  | Some r => (0 < r)%Q
  | None => True
  end.

Definition FilterAndCopyInput_valid (input : FilterAndCopyInput) : Prop :=
  match base_dir input with Some b => b <> [] | None => True end
  /\ match location input with Some l => Location_valid l | None => True end.

Record MatchReport := {
  scanned : nat;
  matched : nat;
  skipped_missing_meta : nat;
  output_dir : jsstring;
  files : list jsstring
}.

(** One record of the extraction step.  The checks [!dto] and [!src] of
    the loop read [DateTimeOriginal] and [SourceFile] as possibly absent,
    so both are optional here. *)
Record ExifData := {
  SourceFile : option jsstring;
  DateTimeOriginal : option jsstring;
  ISO : option Q;
  Artist : option jsstring;
  By_line : option jsstring;
  Creator : option jsstring;
  Make : option jsstring;
  Model : option jsstring;
  GPSLatitude : option Q;
  GPSLongitude : option Q;
  GPSAltitude : option Q;
  GPSAltitudeRef : option Q
}.

(* ================================================================= *)
(** ** The collaborators *)

Inductive result (A : Type) : Type :=
| Ok : A -> result A
| Throw : jsstring -> result A.
Arguments Ok {A} _.
Arguments Throw {A} _.

(** The file system, the clock, the extraction tool and the library
    functions the engine calls.  [stat p w] tells whether [fsp.stat(p)]
    succeeds in the world [w]; [mkdir] and [copyOne] change the world or
    throw; [exiftoolIndex] is the whole of the extraction step.
    [Math_sin], [Math_cos], [Math_atan2] and [Math_pow] are [Math.sin],
    [Math.cos], [Math.atan2] and the operator of exponentiation on
    doubles. *)
Class Platform := {
  world : Type;
  toLowerCase : jsstring -> jsstring;
  path_join : jsstring -> jsstring -> jsstring;
  path_basename : jsstring -> jsstring;
  todayKST : world -> jsstring;
  mkdir : jsstring -> world -> result world;
  exiftoolIndex : jsstring -> world -> result (list ExifData * world);
  stat : jsstring -> world -> bool;
  copyOne : jsstring -> jsstring -> world -> result world;
  Math_sin : float -> float;
  Math_cos : float -> float;
  Math_atan2 : float -> float -> float;
  Math_pow : float -> float -> float
}.

(* ================================================================= *)
(** ** haversineMeters *)

Section Distance.
Context {P : Platform}.

Definition toRad (deg : float) : float := ((deg * Math_PI) / 180)%float.

Definition haversineMeters (lat1 lon1 lat2 lon2 : float) : float :=
  let R0 := 6371000%float in
  let dLat := toRad (lat2 - lat1)%float in
  let dLon := toRad (lon2 - lon1)%float in
  let a := (Math_pow (Math_sin (dLat / 2)) 2
            + Math_cos (toRad lat1) * Math_cos (toRad lat2)
              * Math_pow (Math_sin (dLon / 2)) 2)%float in
  let c := (2 * Math_atan2 (PrimFloat.sqrt a) (PrimFloat.sqrt (1 - a)))%float in
  (R0 * c)%float.

End Distance.

(* ================================================================= *)
(** ** The predicate matcher: the dimensions of the loop body

    Each block of the loop body that may [continue] is a function that
    returns the reason logged for the skip, or [None] when the record
    goes on to the next block. *)

Inductive Skip : Type :=
| SkipDateRange | SkipTimeWindow
| SkipIsoMin | SkipIsoMax
| SkipArtist
| SkipCameraMake | SkipCameraModel
| SkipGpsMissing | SkipGpsOutsideRadius | SkipGpsOutsideBbox
| SkipAltitudeMissing | SkipAltitudeMin | SkipAltitudeMax.

Notation "'check' c 'otherwise' r ;; k" :=
  (if c then k else Some r)
  (at level 61, c at next level, r at next level, right associativity).

Definition check_date_range (input : FilterAndCopyInput) (p : ParsedDateTime)
  : option Skip :=
  let from := or_empty (match date_range input with Some d => dr_from d | None => None end) in
  let to := or_empty (match date_range input with Some d => dr_to d | None => None end) in
  check inDateRange (dateStr p) (Some from) (Some to) otherwise SkipDateRange ;;
  None.

Definition check_time_of_day (input : FilterAndCopyInput) (p : ParsedDateTime)
  : option Skip :=
  match time_of_day input with
  | Some t =>
      check inTimeWindow (hhmm p) (tod_from t) (tod_to t) otherwise SkipTimeWindow ;;
      None
  | None => None
  end.

Definition check_iso (input : FilterAndCopyInput) (it : ExifData) : option Skip :=
  match iso input, ISO it with
  | Some range, Some v =>
      check negb (match iso_min range with Some m => Qltb v m | None => false end)
        otherwise SkipIsoMin ;;
      check negb (match iso_max range with Some m => Qgtb v m | None => false end)
        otherwise SkipIsoMax ;;
      None
  | _, _ => None
  end.

Section Matcher.
Context {P : Platform}.

(** [(v ?? s).trim().toLowerCase()] with the empty string for [s] *)
Definition norm (v : option jsstring) : jsstring :=
  toLowerCase (trim (or_empty v)).

Definition check_artist (input : FilterAndCopyInput) (it : ExifData) : option Skip :=
  if guard (artist input) (fun a => negb (str_eqb (trim a) [])) then
    let a := norm (Some (firstNonEmpty [Artist it; Creator it; By_line it])) in
    let needle := norm (artist input) in
    check negb (str_eqb a [] || negb (includes a needle)) otherwise SkipArtist ;;
    None
  else None.

Definition check_camera (input : FilterAndCopyInput) (it : ExifData) : option Skip :=
  match camera input with
  | Some cam =>
      check negb (truthy (make cam)
                  && negb (includes (norm (Make it)) (norm (make cam))))
        otherwise SkipCameraMake ;;
      check negb (truthy (model cam)
                  && negb (includes (norm (Model it)) (norm (model cam))))
        otherwise SkipCameraModel ;;
      None
  | None => None
  end.

End Matcher.

(** [Array.isArray(input.location.bbox)] *)
Definition hasBbox (l : Location) : bool :=
  match bbox l with Some _ => true | None => false end.

(** [!!(input.location.center && input.location.radius_m)]: a number is
    truthy when it is not zero. *)
Definition hasCenterRadius (l : Location) : bool :=
  match center l, radius_m l with
  | Some _, Some r => negb (Qeq_bool r 0)
  | _, _ => false
  end.

Section Location.
Context {P : Platform}.

(** The distance from the centre [c] to the point [(glat, glon)]. *)
Definition distance_from (c : Center) (glat glon : Q) : float :=
  haversineMeters (Q2F (lat c)) (Q2F (lon c)) (Q2F glat) (Q2F glon).

Definition check_location (input : FilterAndCopyInput) (it : ExifData) : option Skip :=
  match location input with
  | Some l =>
      if hasBbox l || hasCenterRadius l then
        match GPSLatitude it, GPSLongitude it with
        | Some glat, Some glon =>
            if hasCenterRadius l then
              match center l, radius_m l with
              | Some c, Some r =>
                  if number_gt (distance_from c glat glon) r
                  then Some SkipGpsOutsideRadius else None
              | _, _ => None
              end
            else
              match bbox l with
              | Some (minLon, minLat, maxLon, maxLat) =>
                  check Qgeb glon minLon && Qleb glon maxLon
                        && Qgeb glat minLat && Qleb glat maxLat
                    otherwise SkipGpsOutsideBbox ;;
                  None
              | None => None
              end
        | _, _ => Some SkipGpsMissing
        end
      else None
  | None => None
  end.

End Location.

(** The altitude compared with the bounds: negated when
    [GPSAltitudeRef] is the number 1. *)
Definition effective_altitude (alt : Q) (ref : option Q) : Q :=
  match ref with
  | Some r => if Qeq_bool r 1 then (- alt)%Q else alt
  | None => alt
  end.

Definition check_altitude (input : FilterAndCopyInput) (it : ExifData) : option Skip :=
  match altitude input with
  | Some range =>
      if is_some (alt_min range) || is_some (alt_max range) then
        match GPSAltitude it with
        | Some galt =>
            let alt := effective_altitude galt (GPSAltitudeRef it) in
            check negb (match alt_min range with Some m => Qltb alt m | None => false end)
              otherwise SkipAltitudeMin ;;
            check negb (match alt_max range with Some m => Qgtb alt m | None => false end)
              otherwise SkipAltitudeMax ;;
            None
        | None => Some SkipAltitudeMissing
        end
      else None
  | None => None
  end.

(* ================================================================= *)
(** ** filterAndCopy *)

Notation "c 'or_else' k" :=
  (match c with Some r => Some r | None => k end)
  (at level 62, right associativity).

Notation "x <~ c ;; k" :=
  (match c with Ok x => k | Throw e => Throw e end)
  (at level 61, c at next level, right associativity).
Notation "' ( x , y ) <~ c ;; k" :=
  (match c with Ok (x, y) => k | Throw e => Throw e end)
  (at level 61, x name, y name, c at next level, right associativity).

(** The counters and the list of the loop. *)
Record LoopState := {
  st_scanned : nat;
  st_matched : nat;
  st_skipped : nat;
  st_files : list jsstring
}.

Definition count_scanned (st : LoopState) : LoopState :=
  {| st_scanned := S (st_scanned st); st_matched := st_matched st;
     st_skipped := st_skipped st; st_files := st_files st |}.

Definition count_skipped (st : LoopState) : LoopState :=
  {| st_scanned := st_scanned st; st_matched := st_matched st;
     st_skipped := S (st_skipped st); st_files := st_files st |}.

Definition push_matched (dst : jsstring) (st : LoopState) : LoopState :=
  {| st_scanned := st_scanned st; st_matched := S (st_matched st);
     st_skipped := st_skipped st; st_files := st_files st ++ [dst] |}.

(** [let scanned = 0, matched = 0, skipped = 0; const files = []] *)
Definition initial_state : LoopState :=
  {| st_scanned := 0; st_matched := 0; st_skipped := 0; st_files := [] |}.

(** [{ scanned, matched, skipped_missing_meta: skipped, output_dir: outDir, files }] *)
Definition report_of (st : LoopState) (outDir : jsstring) : MatchReport :=
  {| scanned := st_scanned st; matched := st_matched st;
     skipped_missing_meta := st_skipped st; output_dir := outDir;
     files := st_files st |}.

(** The time stamp of the record is absent, empty or not parsable. *)
Definition timestamp_unusable (it : ExifData) : bool :=
  negb (truthy (DateTimeOriginal it))
  || negb (is_some (parseExifDateTime (or_empty (DateTimeOriginal it)))).

Section Engine.
Context {P : Platform}.

(** The blocks of the loop body between the parse of the time stamp and
    the copy, in the order of the source: the first skip wins. *)
Definition matchRecord (input : FilterAndCopyInput) (it : ExifData)
    (p : ParsedDateTime) : option Skip :=
  check_date_range input p or_else
  check_time_of_day input p or_else
  check_iso input it or_else
  check_artist input it or_else
  check_camera input it or_else
  check_location input it or_else
  check_altitude input it.

(** One turn of [for (const it of items)]. *)
Definition loop_body (input : FilterAndCopyInput) (outDir : jsstring)
    (it : ExifData) (st : LoopState) (w : world) : result (LoopState * world) :=
  let st := count_scanned st in
  let dto := DateTimeOriginal it in
  if negb (truthy dto) then Ok (count_skipped st, w)
  else
    match parseExifDateTime (or_empty dto) with
    | None => Ok (count_skipped st, w)
    | Some parsed =>
        match matchRecord input it parsed with
        | Some _ => Ok (st, w)
        | None =>
            let src := SourceFile it in
            if negb (truthy src) then Ok (st, w)
            else if negb (stat (or_empty src) w) then Ok (st, w)
            else
              let dst := path_join outDir (path_basename (or_empty src)) in
              w <~ copyOne (or_empty src) dst w ;;
              Ok (push_matched dst st, w)
        end
    end.

Fixpoint loop (input : FilterAndCopyInput) (outDir : jsstring)
    (items : list ExifData) (st : LoopState) (w : world)
  : result (LoopState * world) :=
  match items with
  | [] => Ok (st, w)
  | it :: rest =>
      '(st, w) <~ loop_body input outDir it st w ;;
      loop input outDir rest st w
  end.

Definition filterAndCopy (outRoot : jsstring) (input : FilterAndCopyInput)
    (w : world) : result (MatchReport * world) :=
  if negb (truthy (base_dir input))
     || str_eqb (trim (or_empty (base_dir input))) []
  then Throw (js "base_dir required")
  else
    let outDir :=
      path_join outRoot
        (todayKST w ++ js "_" ++ promptSlug (original_prompt input)) in
    w <~ mkdir outDir w ;;
    '(items, w) <~ exiftoolIndex (or_empty (base_dir input)) w ;;
    '(st, w) <~ loop input outDir items initial_state w ;;
    Ok (report_of st outDir, w).

End Engine.

(** A location with another [bbox], a filter with another [location] or
    [altitude]. *)
Definition set_bbox (l : Location) (b : option (Q * Q * Q * Q)) : Location :=
  {| bbox := b; center := center l; radius_m := radius_m l |}.

Definition set_location (input : FilterAndCopyInput) (l : option Location)
  : FilterAndCopyInput :=
  {| base_dir := base_dir input; output_root := output_root input;
     original_prompt := original_prompt input;
     date_range := date_range input; time_of_day := time_of_day input;
     iso := iso input; artist := artist input; camera := camera input;
     location := l; altitude := altitude input |}.

Definition set_altitude (input : FilterAndCopyInput) (a : AltRange)
  : FilterAndCopyInput :=
  {| base_dir := base_dir input; output_root := output_root input;
     original_prompt := original_prompt input;
     date_range := date_range input; time_of_day := time_of_day input;
     iso := iso input; artist := artist input; camera := camera input;
     location := location input; altitude := Some a |}.

(* ================================================================= *)
(** ** A small platform to run the engine on

    A world is the list of the paths that exist, the records the
    extraction step returns and the date of the day; a copy throws when
    its source does not exist or the disk is read-only. *)

Module Sim.

Record World := {
  disk : list jsstring;
  records : list ExifData;
  today : jsstring;
  read_only : bool
}.

Definition lower (s : jsstring) : jsstring :=
  map (fun c => if (65 <=? c) && (c <=? 90) then c + 32 else c)%N s.

Definition exists_on (p : jsstring) (w : World) : bool :=
  existsb (str_eqb p) (disk w).

Definition copy (src dst : jsstring) (w : World) : result World :=
  if exists_on src w && negb (read_only w)
  then Ok {| disk := dst :: disk w; records := records w;
             today := today w; read_only := read_only w |}
  else Throw (js "copyFile failed").

(** The library of numbers: the doubles that the library of V8 returns at
    the arguments that the distance between (12, 0) and (-12, 180)
    reaches, and the approximations for small angles elsewhere. *)
Definition math_sin (x : float) : float :=
  if (x =? -0x1.acee9f37bebd5p-3)%float then (-0x1.a9cd9ac4258f5p-3)%float
  else if (x =? 0x1.acee9f37bebd5p-3)%float then 0x1.a9cd9ac4258f5p-3%float
  else if (x =? 0x1.921fb54442d18p+0)%float then 1%float
  else if (x =? -0x1.921fb54442d18p+0)%float then (-1)%float
  else x.

Definition math_cos (x : float) : float :=
  if (PrimFloat.abs x =? 0x1.acee9f37bebd5p-3)%float
  then 0x1.f4cfc327a0080p-1%float
  else 1%float.

Definition math_pow (x y : float) : float :=
  if (y =? 2)%float then (x * x)%float else nan.

Definition math_atan2 (y x : float) : float := (y / x)%float.

#[export] Instance platform : Platform := {|
  world := World;
  toLowerCase := lower;
  path_join := fun a b => a ++ js "/" ++ b;
  path_basename := fun p => last (split 47%N p) [];
  todayKST := today;
  mkdir := fun _ w => Ok w;
  exiftoolIndex := fun _ w => Ok (records w, w);
  stat := exists_on;
  copyOne := copy;
  Math_sin := math_sin;
  Math_cos := math_cos;
  Math_atan2 := math_atan2;
  Math_pow := math_pow
|}.

Definition photo (src dto : string) : ExifData :=
  {| SourceFile := Some (js src); DateTimeOriginal := Some (js dto);
     ISO := None; Artist := None; By_line := None; Creator := None;
     Make := None; Model := None; GPSLatitude := None; GPSLongitude := None;
     GPSAltitude := None; GPSAltitudeRef := None |}.

Definition at_point (it : ExifData) (glat glon : Q) : ExifData :=
  {| SourceFile := SourceFile it; DateTimeOriginal := DateTimeOriginal it;
     ISO := ISO it; Artist := Artist it; By_line := By_line it;
     Creator := Creator it; Make := Make it; Model := Model it;
     GPSLatitude := Some glat; GPSLongitude := Some glon;
     GPSAltitude := GPSAltitude it; GPSAltitudeRef := GPSAltitudeRef it |}.

Definition at_altitude (it : ExifData) (alt : Q) (ref : option Q) : ExifData :=
  {| SourceFile := SourceFile it; DateTimeOriginal := DateTimeOriginal it;
     ISO := ISO it; Artist := Artist it; By_line := By_line it;
     Creator := Creator it; Make := Make it; Model := Model it;
     GPSLatitude := GPSLatitude it; GPSLongitude := GPSLongitude it;
     GPSAltitude := Some alt; GPSAltitudeRef := ref |}.

(** A filter with no dimension at all. *)
Definition no_filter (prompt : string) : FilterAndCopyInput :=
  {| base_dir := Some (js "/photos"); output_root := None;
     original_prompt := js prompt; date_range := None; time_of_day := None;
     iso := None; artist := None; camera := None; location := None;
     altitude := None |}.

Definition sample_world : World :=
  {| disk := [js "/photos/a.jpg"; js "/photos/b.jpg"];
     records := [photo "/photos/a.jpg" "2024:01:15 10:00:00";
                 photo "/photos/b.jpg" "not a date";
                 photo "/photos/gone.jpg" "2024:01:15T10:00"];
     today := js "2024-02-01";
     read_only := false |}.

(** What the engine returns for [sample_world], an empty filter, the
    output root [/out] and the prompt [Seoul trip: day 1!]: one file is
    copied, one record has no usable time stamp, one source is missing. *)
Definition sample_report : MatchReport :=
  {| scanned := 3; matched := 1; skipped_missing_meta := 1;
     output_dir := js "/out/2024-02-01_Seoul-trip-day-1!";
     files := [js "/out/2024-02-01_Seoul-trip-day-1!/a.jpg"] |}.

Definition sample_world_after : World :=
  {| disk := js "/out/2024-02-01_Seoul-trip-day-1!/a.jpg" :: disk sample_world;
     records := records sample_world;
     today := today sample_world;
     read_only := false |}.

(** A filter whose base directory is white space, a world whose disk is
    read-only, and a filter no record of [sample_world] passes, with the
    report of its run. *)
Definition blank_base_dir : FilterAndCopyInput :=
  {| base_dir := Some (js "  "); output_root := None;
     original_prompt := js "x"; date_range := None; time_of_day := None;
     iso := None; artist := None; camera := None; location := None;
     altitude := None |}.

Definition read_only_world : World :=
  {| disk := disk sample_world; records := records sample_world;
     today := today sample_world; read_only := true |}.

Definition year_2025 : FilterAndCopyInput :=
  {| base_dir := Some (js "/photos"); output_root := None;
     original_prompt := js "2025";
     date_range := Some {| dr_from := Some (js "2025-01-01");
                           dr_to := Some (js "2025-12-31") |};
     time_of_day := None; iso := None; artist := None; camera := None;
     location := None; altitude := None |}.

Definition empty_report : MatchReport :=
  {| scanned := 3; matched := 0; skipped_missing_meta := 1;
     output_dir := js "/out/2024-02-01_2025"; files := [] |}.

End Sim.

(** The bounding box and the centre of the examples. *)
Definition seoul_bbox : Location :=
  {| bbox := Some (126.76, 37.4, 127.18, 37.7)%Q; center := None;
     radius_m := None |}.

Definition some_photo : ExifData :=
  Sim.photo "/photos/a.jpg" "2024:01:15 10:00:00".

Definition namsan_both : Location :=
  {| bbox := Some (126.76, 37.4, 127.18, 37.7)%Q;
     center := Some {| lat := 37.5512; lon := 126.9882 |};
     radius_m := Some 500%Q |}.

(** A centre at (12, 0) with a radius of 500 metres and a bounding box
    around it, and a record at the antipodes (-12, 180). *)
Definition around_12_0 : Location :=
  {| bbox := Some (-1, 11, 1, 13)%Q;
     center := Some {| lat := 12; lon := 0 |};
     radius_m := Some 500%Q |}.

Definition at_antipodes : ExifData := Sim.at_point some_photo (-12) 180.

(** What [Math.sin], [Math.cos], the power and [Math.atan2] return in V8
    at the arguments that the distance between (12, 0) and (-12, 180)
    reaches, from either side: the sines and cosines of 12 and 90 degrees
    to the nearest double, squares by one multiplication, and NaN for a
    NaN argument as ECMAScript demands. *)
Definition library_at_antipodes {P : Platform} : Prop :=
  Math_sin (-0x1.acee9f37bebd5p-3)%float = (-0x1.a9cd9ac4258f5p-3)%float
  /\ Math_sin 0x1.acee9f37bebd5p-3%float = 0x1.a9cd9ac4258f5p-3%float
  /\ Math_sin 0x1.921fb54442d18p+0%float = 1%float
  /\ Math_sin (-0x1.921fb54442d18p+0)%float = (-1)%float
  /\ Math_cos 0x1.acee9f37bebd5p-3%float = 0x1.f4cfc327a0080p-1%float
  /\ Math_cos (-0x1.acee9f37bebd5p-3)%float = 0x1.f4cfc327a0080p-1%float
  /\ Math_pow (-0x1.a9cd9ac4258f5p-3)%float 2%float = 0x1.621e288040355p-5%float
  /\ Math_pow 0x1.a9cd9ac4258f5p-3%float 2%float = 0x1.621e288040355p-5%float
  /\ Math_pow 1%float 2%float = 1%float
  /\ Math_pow (-1)%float 2%float = 1%float
  /\ Math_atan2 1%float nan = nan.

(* ================================================================= *)
(** ** The dimensions of a filter *)

Inductive Dimension : Type :=
| DateRangeDim | TimeOfDayDim | IsoDim | ArtistDim | CameraDim
| LocationDim | AltitudeDim.

(** The dimension whose block logs the skip. *)
Definition dimension_of (r : Skip) : Dimension :=
  match r with
  | SkipDateRange => DateRangeDim
  | SkipTimeWindow => TimeOfDayDim
  | SkipIsoMin | SkipIsoMax => IsoDim
  | SkipArtist => ArtistDim
  | SkipCameraMake | SkipCameraModel => CameraDim
  | SkipGpsMissing | SkipGpsOutsideRadius | SkipGpsOutsideBbox => LocationDim
  | SkipAltitudeMissing | SkipAltitudeMin | SkipAltitudeMax => AltitudeDim
  end.

(** The field of the dimension is not in the filter at all. *)
Definition absent (d : Dimension) (input : FilterAndCopyInput) : Prop :=
  match d with
  | DateRangeDim => date_range input = None
  | TimeOfDayDim => time_of_day input = None
  | IsoDim => iso input = None
  | ArtistDim => artist input = None
  | CameraDim => camera input = None
  | LocationDim => location input = None
  | AltitudeDim => altitude input = None
  end.

Definition check_dimension {P : Platform} (d : Dimension)
    (input : FilterAndCopyInput) (it : ExifData) (p : ParsedDateTime)
  : option Skip :=
  match d with
  | DateRangeDim => check_date_range input p
  | TimeOfDayDim => check_time_of_day input p
  | IsoDim => check_iso input it
  | ArtistDim => check_artist input it
  | CameraDim => check_camera input it
  | LocationDim => check_location input it
  | AltitudeDim => check_altitude input it
  end.

(** The loop invariant on the counters. *)
Definition counters_ok (st : LoopState) : Prop :=
  st_matched st = length (st_files st)
  /\ (st_matched st + st_skipped st <= st_scanned st)%nat.

(* ================================================================= *)
(** ** expandTilde and the output of the extraction tool *)

Section Paths.
Context {P : Platform}.

(** [os.homedir()] is the argument [homedir]; [v.slice(2)] drops the
    tilde and the slash. *)
Definition expandTilde (homedir : jsstring) (p : option jsstring) : jsstring :=
  let v := trim (or_empty p) in
  if str_eqb v [] then []
  else if str_eqb v (js "~") then homedir
  else if startsWith v (js "~/") then path_join homedir (skipn 2 v)
  else v.

End Paths.

(** What [execa] gives: the standard output of the tool, or an error with
    its text ([err?.message || err]) and its [stderr]. *)
Inductive Execa : Type :=
| ExecaOk (stdout : jsstring)
| ExecaFailed (message stderr : jsstring).

(** What [JSON.parse] gives, read as [ExifData[] | ExifData]. *)
Inductive Json : Type :=
| JsonArray (items : list ExifData)
| JsonOther (item : ExifData).

Definition exiftool_error (message stderr : jsstring) : jsstring :=
  js "exiftool error: " ++ message ++ js " stderr: " ++ stderr.

(** The body of [exiftoolIndex] after the call of the tool:
    [stdout.replace(/^\s*[\uFEFF\s]*/, ...)] removes the white space at the
    head (U+FEFF is white space), the head must be a bracket or a brace,
    [JSON.parse] may throw, and whatever is thrown is caught and thrown
    again as an [exiftool error]. *)
Definition exiftoolIndex_body (JSON_parse : jsstring -> result Json)
    (run : Execa) : result (list ExifData) :=
  match run with
  | ExecaFailed message stderr => Throw (exiftool_error message stderr)
  | ExecaOk stdout =>
      let trimmed := dropWhile is_space stdout in
      if negb (truthy (Some trimmed))
         || negb (startsWith trimmed [91%N] || startsWith trimmed [123%N])
      then Throw (exiftool_error
                    (js "exiftool JSON parse failed: out(head): "
                     ++ firstn 200 trimmed) [])
      else
        match JSON_parse trimmed with
        | Throw message => Throw (exiftool_error message [])
        | Ok (JsonArray items) => Ok items
        | Ok (JsonOther item) => Ok [item]
        end
  end.

(* ================================================================= *)
(** ** Notions for the further properties *)

(** A value that [firstNonEmpty] passes over: absent, empty or white
    space only. *)
Definition blank (v : option jsstring) : bool :=
  negb (guard v (fun v => negb (str_eqb (trim v) []))).

(** The number a string of digits writes. *)
Definition digits_value (s : jsstring) : N :=
  fold_left (fun acc c => acc * 10 + (c - 48))%N s 0%N.

(** The number of a date [YYYY-MM-DD] is YYYYMMDD, the number of a time
    [HH:MM] is HHMM. *)
Definition date_key (s : jsstring) : N := digits_value (filter is_digit s).

(** [YYYY-MM-DD] and [HH:MM] *)
Definition iso_date (s : jsstring) : Prop :=
  exists y mo d,
    s = y ++ hyphen :: mo ++ hyphen :: d
    /\ digit_string 4 y /\ digit_string 2 mo /\ digit_string 2 d.

Definition clock_time (s : jsstring) : Prop :=
  exists hh mm,
    s = hh ++ colon :: mm /\ digit_string 2 hh /\ digit_string 2 mm.

(** [l1] is [l2] with some elements left out, in the same order. *)
Inductive subseq {A : Type} : list A -> list A -> Prop :=
| subseq_nil : subseq [] []
| subseq_skip : forall x l1 l2, subseq l1 l2 -> subseq l1 (x :: l2)
| subseq_keep : forall x l1 l2, subseq l1 l2 -> subseq (x :: l1) (x :: l2).

Section Eligible.
Context {P : Platform}.

(** The record reaches [fsp.stat]: its time stamp parses, no block skips
    it and it has a source path. *)
Definition eligible (input : FilterAndCopyInput) (it : ExifData) : bool :=
  truthy (DateTimeOriginal it)
  && match parseExifDateTime (or_empty (DateTimeOriginal it)) with
     | Some parsed => negb (is_some (matchRecord input it parsed))
     | None => false
     end
  && truthy (SourceFile it).

(** [path.join(outDir, path.basename(src))] *)
Definition destination (outDir : jsstring) (it : ExifData) : jsstring :=
  path_join outDir (path_basename (or_empty (SourceFile it))).

End Eligible.

(** A location with another radius. *)
Definition set_radius (l : Location) (r : option Q) : Location :=
  {| bbox := bbox l; center := center l; radius_m := r |}.

(** The text thrown for an output that is not JSON. *)
Definition parse_failed (trimmed : jsstring) : jsstring :=
  exiftool_error
    (js "exiftool JSON parse failed: out(head): " ++ firstn 200 trimmed) [].

(* ================================================================= *)
(** ** Filters and records of the examples *)

Definition january_2024 : FilterAndCopyInput :=
  {| base_dir := Some (js "/photos"); output_root := None;
     original_prompt := js "January";
     date_range := Some {| dr_from := Some (js "2024-01-01");
                           dr_to := Some (js "2024-01-31") |};
     time_of_day := None; iso := None; artist := None; camera := None;
     location := None; altitude := None |}.

Definition iso_100_400 : FilterAndCopyInput :=
  {| base_dir := Some (js "/photos"); output_root := None;
     original_prompt := js "low iso"; date_range := None;
     time_of_day := None;
     iso := Some {| iso_min := Some 100%Q; iso_max := Some 400%Q |};
     artist := None; camera := None; location := None; altitude := None |}.

Definition by_ansel : FilterAndCopyInput :=
  {| base_dir := Some (js "/photos"); output_root := None;
     original_prompt := js "ansel"; date_range := None; time_of_day := None;
     iso := None; artist := Some (js " Ansel ");
     camera := Some {| make := Some (js "FUJI"); model := None |};
     location := None; altitude := None |}.

Definition only_latitude : ExifData :=
  {| SourceFile := Some (js "/photos/a.jpg");
     DateTimeOriginal := Some (js "2024:01:15 10:00:00");
     ISO := None; Artist := None; By_line := None; Creator := None;
     Make := None; Model := None;
     GPSLatitude := Some 37.55%Q; GPSLongitude := None;
     GPSAltitude := None; GPSAltitudeRef := None |}.

Definition across_the_date_line : Location :=
  {| bbox := Some (170, -20, -170, 20)%Q; center := None; radius_m := None |}.

(* ================================================================= *)
(** * Properties *)

(* ================================================================= *)
(** ** The functions on the scenarios of the specification *)

Example parse_with_seconds :
  parseExifDateTime (js "2024:01:15 10:00:00")
  = Some {| dateStr := js "2024-01-15"; hhmm := js "10:00" |}.
Proof. reflexivity. Qed.

Example parse_with_T_without_seconds :
  parseExifDateTime (js "2023:12:31T23:59")
  = Some {| dateStr := js "2023-12-31"; hhmm := js "23:59" |}.
Proof. reflexivity. Qed.

Example parse_rejects_a_longer_string :
  parseExifDateTime (js "2024:01:15 10:00:00+09:00") = None.
Proof. reflexivity. Qed.

Example date_range_scenario :
  inDateRange (js "2024-01-15") (Some (js "2024-01-01")) (Some (js "2024-01-31"))
  = true
  /\ inDateRange (js "2023-12-31") (Some (js "2024-01-01"))
       (Some (js "2024-01-31")) = false.
Proof. split; reflexivity. Qed.

Example trim_both_ends : trim (js "  Ansel Adams ") = js "Ansel Adams".
Proof. reflexivity. Qed.

Example first_non_empty_skips_blank :
  firstNonEmpty [None; Some (js "  "); Some (js "Creator")] = js "Creator".
Proof. reflexivity. Qed.

Example split_join_colon :
  join [hyphen] (split colon (js "a:b::c")) = js "a-b--c".
Proof. reflexivity. Qed.

Example run_on_sample_world :
  filterAndCopy (P := Sim.platform) (js "/out")
    (Sim.no_filter "Seoul trip: day 1!") Sim.sample_world
  = Ok (Sim.sample_report, Sim.sample_world_after).
Proof. vm_compute. reflexivity. Qed.

(* ================================================================= *)
(** ** The great-circle distance *)

(** *** The formula in exact arithmetic *)

Lemma exact_toRad_opp (x y : R) :
  (exact_toRad (x - y) / 2 = - (exact_toRad (y - x) / 2))%R.
Proof. unfold exact_toRad. field. Qed.

Lemma sin_half_sq_swap (x y : R) :
  (sin (exact_toRad (x - y) / 2) ^ 2 = sin (exact_toRad (y - x) / 2) ^ 2)%R.
Proof. rewrite exact_toRad_opp, sin_neg. ring. Qed.

Lemma exact_atan2_0_1 : exact_atan2 0 1 = 0%R.
Proof.
  unfold exact_atan2. destruct (Rlt_dec 0 1) as [_ | H]; [| lra].
  replace (0 / 1)%R with 0%R by field. apply atan_0.
Qed.

Lemma sin_half_sq (x : R) : (sin (x / 2) ^ 2 = (1 - cos x) / 2)%R.
Proof.
  replace x with (2 * (x / 2))%R at 2 by field.
  rewrite cos_2a_sin. field.
Qed.

(** The number [a] of the formula lies between 0 and 1 for all
    arguments, so in exact arithmetic both square roots are taken of
    non-negative numbers. *)
Lemma haversine_a_bounds (lat1 lon1 lat2 lon2 : R) :
  (0 <= sin (exact_toRad (lat2 - lat1) / 2) ^ 2
        + cos (exact_toRad lat1) * cos (exact_toRad lat2)
          * sin (exact_toRad (lon2 - lon1) / 2) ^ 2 <= 1)%R.
Proof.
  replace (exact_toRad (lat2 - lat1))
    with (exact_toRad lat2 - exact_toRad lat1)%R
    by (unfold exact_toRad; field).
  rewrite !sin_half_sq, cos_minus.
  set (h := ((1 - cos (exact_toRad (lon2 - lon1))) / 2)%R).
  assert (Hh : (0 <= h <= 1)%R).
  { unfold h. pose proof (COS_bound (exact_toRad (lon2 - lon1))). lra. }
  pose proof (sin2_cos2 (exact_toRad lat1)) as H1.
  pose proof (sin2_cos2 (exact_toRad lat2)) as H2.
  unfold Rsqr in H1, H2.
  set (s1 := sin (exact_toRad lat1)) in *.
  set (c1 := cos (exact_toRad lat1)) in *.
  set (s2 := sin (exact_toRad lat2)) in *.
  set (c2 := cos (exact_toRad lat2)) in *.
  pose proof (pow2_ge_0 (c1 - c2)) as Q1.
  pose proof (pow2_ge_0 (s1 - s2)) as Q2.
  pose proof (pow2_ge_0 (c1 + c2)) as Q3.
  pose proof (pow2_ge_0 (s1 + s2)) as Q4.
  assert (A : (-1 <= c2 * c1 + s2 * s1 <= 1)%R) by (split; nra).
  assert (B : (-1 <= c1 * c2 - s1 * s2 <= 1)%R) by (split; nra).
  assert (E : ((1 - (c2 * c1 + s2 * s1)) / 2 + c1 * c2 * h
               = (1 - h) * ((1 - (c2 * c1 + s2 * s1)) / 2)
                 + h * ((1 + (c1 * c2 - s1 * s2)) / 2))%R) by field.
  rewrite E. split; nra.
Qed.

(** Without rounding the formula is symmetric, gives 0 from a point to
    itself and stays within half the circumference. *)
Lemma haversine_exact_swap (lat1 lon1 lat2 lon2 : R) :
  haversine_exact lat1 lon1 lat2 lon2 = haversine_exact lat2 lon2 lat1 lon1.
Proof.
  unfold haversine_exact.
  rewrite (sin_half_sq_swap lat2 lat1), (sin_half_sq_swap lon2 lon1).
  rewrite (Rmult_comm (cos (exact_toRad lat1)) (cos (exact_toRad lat2))).
  reflexivity.
Qed.

Lemma haversine_exact_same (lat1 lon1 : R) :
  haversine_exact lat1 lon1 lat1 lon1 = 0%R.
Proof.
  unfold haversine_exact.
  assert (Hz : forall x : R, (sin (exact_toRad (x - x) / 2) ^ 2 = 0)%R).
  { intro x.
    replace (exact_toRad (x - x) / 2)%R with 0%R
      by (unfold exact_toRad; field).
    rewrite sin_0. ring. }
  rewrite !Hz.
  replace (0 + cos (exact_toRad lat1) * cos (exact_toRad lat1) * 0)%R
    with 0%R by ring.
  replace (1 - 0)%R with 1%R by ring.
  rewrite sqrt_0, sqrt_1, exact_atan2_0_1. ring.
Qed.

Lemma exact_atan2_first_quadrant (y x : R) :
  (0 <= y)%R -> (0 <= x)%R -> (0 <= exact_atan2 y x <= PI / 2)%R.
Proof.
  intros Hy Hx. pose proof PI_RGT_0 as Hpi. unfold exact_atan2.
  destruct (Rlt_dec 0 x) as [Hpos | Hnpos].
  - pose proof (atan_bound (y / x)) as [_ Hub].
    split; [| lra].
    destruct (Req_dec y 0) as [-> | Hne].
    + replace (0 / x)%R with 0%R by (field; lra). rewrite atan_0. lra.
    + assert (0 < y / x)%R by (apply Rdiv_lt_0_compat; lra).
      pose proof (atan_increasing 0 (y / x) H) as Hinc.
      rewrite atan_0 in Hinc. lra.
  - destruct (Rlt_dec x 0) as [Hneg | _]; [lra |].
    destruct (Rlt_dec 0 y) as [_ | _]; [lra |].
    destruct (Rlt_dec y 0) as [Hneg | _]; lra.
Qed.

Lemma haversine_exact_range (lat1 lon1 lat2 lon2 : R) :
  (0 <= haversine_exact lat1 lon1 lat2 lon2 <= PI * 6371000)%R.
Proof.
  unfold haversine_exact.
  match goal with
  | |- context [exact_atan2 ?y ?x] =>
      pose proof (exact_atan2_first_quadrant y x (sqrt_pos _) (sqrt_pos _))
        as H
  end.
  lra.
Qed.

(** From (12, 0) to its antipodes (-12, 180) the exact distance is half
    the circumference, some 20015 kilometres. *)
Lemma haversine_exact_antipodes :
  haversine_exact 12 0 (-12) 180 = (PI * 6371000)%R.
Proof.
  unfold haversine_exact.
  replace (exact_toRad (-12 - 12) / 2)%R with (- exact_toRad 12)%R
    by (unfold exact_toRad; field).
  replace (exact_toRad (-12))%R with (- exact_toRad 12)%R
    by (unfold exact_toRad; field).
  replace (exact_toRad (180 - 0) / 2)%R with (PI / 2)%R
    by (unfold exact_toRad; field).
  rewrite sin_neg, cos_neg, sin_PI2.
  replace ((- sin (exact_toRad 12)) ^ 2
           + cos (exact_toRad 12) * cos (exact_toRad 12) * 1 ^ 2)%R
    with ((sin (exact_toRad 12))² + (cos (exact_toRad 12))²)%R
    by (unfold Rsqr; ring).
  rewrite sin2_cos2.
  replace (1 - 1)%R with 0%R by ring.
  rewrite sqrt_0, sqrt_1.
  unfold exact_atan2.
  destruct (Rlt_dec 0 0) as [H | _]; [lra |].
  destruct (Rlt_dec 0 0) as [H | _]; [lra |].
  destruct (Rlt_dec 0 1) as [_ | H]; [| lra].
  field.
Qed.

(** *** The function on doubles *)

(** With the library as it is in V8, the distance between (12, 0) and
    (-12, 180) is NaN in both directions: the number [a] comes out as
    1.0000000000000002, and the square root of [1 - a] is NaN. *)
Lemma haversineMeters_at_antipodes {P : Platform} :
  library_at_antipodes ->
  haversineMeters 12 0 (-12) 180 = nan
  /\ haversineMeters (-12) 180 12 0 = nan.
Proof.
  intros (S1 & S2 & S3 & S4 & C1 & C2 & P1 & P2 & P3 & P4 & A).
  unfold haversineMeters. cbv zeta.
  assert (E1 : (toRad (-12 - 12) / 2 = -0x1.acee9f37bebd5p-3)%float)
    by reflexivity.
  assert (E2 : (toRad (12 - -12) / 2 = 0x1.acee9f37bebd5p-3)%float)
    by reflexivity.
  assert (E3 : (toRad (180 - 0) / 2 = 0x1.921fb54442d18p+0)%float)
    by reflexivity.
  assert (E4 : (toRad (0 - 180) / 2 = -0x1.921fb54442d18p+0)%float)
    by reflexivity.
  assert (E5 : (toRad 12 = 0x1.acee9f37bebd5p-3)%float) by reflexivity.
  assert (E6 : (toRad (-12) = -0x1.acee9f37bebd5p-3)%float) by reflexivity.
  rewrite E1, E2, E3, E4, E5, E6.
  rewrite S1, S2, S3, S4, C1, C2, P1, P2, P3, P4.
  assert (Ea : (0x1.621e288040355p-5
                + 0x1.f4cfc327a0080p-1 * 0x1.f4cfc327a0080p-1 * 1
                = 0x1.0000000000001p+0)%float) by reflexivity.
  rewrite Ea.
  change (PrimFloat.sqrt 0x1.0000000000001p+0) with 1%float.
  change (PrimFloat.sqrt (1 - 0x1.0000000000001p+0)) with nan.
  rewrite A. split; reflexivity.
Qed.

(** C8, at the input where the code departs from it.  With the library
    as it is in V8, [haversineMeters] returns NaN for the points (12, 0)
    and (-12, 180), in both directions, and the comparison [==] of the
    two results is false: the distance is not symmetric there. *)
Theorem haversineMeters_not_symmetric_at_antipodes {P : Platform} :
  library_at_antipodes ->
  PrimFloat.is_nan (haversineMeters 12 0 (-12) 180) = true
  /\ PrimFloat.is_nan (haversineMeters (-12) 180 12 0) = true
  /\ (haversineMeters 12 0 (-12) 180 =? haversineMeters (-12) 180 12 0)%float
     = false.
Proof.
  intro H. destruct (haversineMeters_at_antipodes H) as [-> ->].
  repeat split; reflexivity.
Qed.

Lemma sim_library_at_antipodes : library_at_antipodes (P := Sim.platform).
Proof. repeat split; reflexivity. Qed.

Lemma haversineMeters_not_symmetric_at_antipodes_witness :
  (haversineMeters (P := Sim.platform) 12 0 (-12) 180
   =? haversineMeters (P := Sim.platform) (-12) 180 12 0)%float = false.
Proof.
  apply (haversineMeters_not_symmetric_at_antipodes (P := Sim.platform)).
  exact sim_library_at_antipodes.
Defined.

(* ================================================================= *)
(** ** The report *)

Section Report.
Context {P : Platform}.

Lemma loop_body_counters input outDir it st w st' w' :
  loop_body input outDir it st w = Ok (st', w') ->
  counters_ok st ->
  counters_ok st' /\ st_scanned st' = S (st_scanned st).
Proof.
  unfold loop_body, counters_ok. intros H [Hm Hs].
  destruct (negb (truthy (DateTimeOriginal it))).
  { inversion H; subst; clear H. simpl. repeat split; auto; lia. }
  destruct (parseExifDateTime (or_empty (DateTimeOriginal it))) as [parsed |].
  2: { inversion H; subst; clear H. simpl. repeat split; auto; lia. }
  destruct (matchRecord input it parsed).
  { inversion H; subst; clear H. simpl. repeat split; auto; lia. }
  destruct (negb (truthy (SourceFile it))).
  { inversion H; subst; clear H. simpl. repeat split; auto; lia. }
  destruct (negb (stat (or_empty (SourceFile it)) w)).
  { inversion H; subst; clear H. simpl. repeat split; auto; lia. }
  destruct (copyOne _ _ w); [| discriminate].
  inversion H; subst; clear H. simpl.
  rewrite length_app. simpl. repeat split; lia.
Qed.

Lemma loop_counters input outDir items : forall st w st' w',
  loop input outDir items st w = Ok (st', w') ->
  counters_ok st ->
  counters_ok st' /\ st_scanned st' = (st_scanned st + length items)%nat.
Proof.
  induction items as [| it rest IH]; simpl; intros st w st' w' H Hok.
  - inversion H; subst. split; [assumption | lia].
  - destruct (loop_body input outDir it st w) as [[st1 w1] | e] eqn:Hb;
      [| discriminate].
    destruct (loop_body_counters _ _ _ _ _ _ _ Hb Hok) as [Hok1 Hsc1].
    destruct (IH _ _ _ _ H Hok1) as [Hok' Hsc'].
    split; [assumption | lia].
Qed.

(** A run that returns a report made the directory, read the records and
    went through the loop. *)
Lemma filterAndCopy_run outRoot input w rep w' :
  filterAndCopy outRoot input w = Ok (rep, w') ->
  exists w1 items w2 st,
    mkdir (output_dir rep) w = Ok w1
    /\ exiftoolIndex (or_empty (base_dir input)) w1 = Ok (items, w2)
    /\ loop input (output_dir rep) items initial_state w2 = Ok (st, w')
    /\ rep = report_of st (output_dir rep).
Proof.
  unfold filterAndCopy. intro H.
  destruct (negb (truthy (base_dir input)) || _); [discriminate |].
  destruct (mkdir _ w) as [w1 | e] eqn:Hmk; [| discriminate].
  destruct (exiftoolIndex _ w1) as [[items w2] | e] eqn:Hex; [| discriminate].
  destruct (loop _ _ items _ w2) as [[st w3] | e] eqn:Hl; [| discriminate].
  inversion H; subst; clear H. simpl.
  exists w1, items, w2, st. auto.
Qed.

(** C1. A run of [filterAndCopy] that returns a report returns one with
    [matched = length files] and [scanned >= matched + skipped_missing_meta],
    where [scanned] is the number of records the extraction step gave. *)
Theorem filterAndCopy_report_invariant outRoot input w rep w' :
  filterAndCopy outRoot input w = Ok (rep, w') ->
  matched rep = length (files rep)
  /\ (scanned rep >= matched rep + skipped_missing_meta rep)%nat
  /\ exists w1 items w2,
       mkdir (output_dir rep) w = Ok w1
       /\ exiftoolIndex (or_empty (base_dir input)) w1 = Ok (items, w2)
       /\ scanned rep = length items.
Proof.
  intro H.
  destruct (filterAndCopy_run _ _ _ _ _ H)
    as (w1 & items & w2 & st & Hmk & Hex & Hl & Hrep).
  apply loop_counters in Hl; [| split; simpl; lia].
  destruct Hl as [[Hm Hs] Hsc]. simpl in Hsc.
  rewrite Hrep. simpl.
  repeat split; try assumption; try lia.
  exists w1, items, w2. auto.
Qed.

Lemma loop_body_skipped input outDir it st w st' w' :
  loop_body input outDir it st w = Ok (st', w') ->
  st_skipped st'
  = (st_skipped st + if timestamp_unusable it then 1 else 0)%nat.
Proof.
  unfold loop_body, timestamp_unusable. intro H.
  destruct (negb (truthy (DateTimeOriginal it))).
  { inversion H; subst; clear H. simpl. lia. }
  destruct (parseExifDateTime (or_empty (DateTimeOriginal it))) as [parsed |].
  2: { inversion H; subst; clear H. simpl. lia. }
  simpl.
  destruct (matchRecord input it parsed).
  { inversion H; subst; clear H. simpl. lia. }
  destruct (negb (truthy (SourceFile it))).
  { inversion H; subst; clear H. simpl. lia. }
  destruct (negb (stat (or_empty (SourceFile it)) w)).
  { inversion H; subst; clear H. simpl. lia. }
  destruct (copyOne _ _ w); [| discriminate].
  inversion H; subst; clear H. simpl. lia.
Qed.

Lemma loop_skipped input outDir items : forall st w st' w',
  loop input outDir items st w = Ok (st', w') ->
  st_skipped st'
  = (st_skipped st + length (filter timestamp_unusable items))%nat.
Proof.
  induction items as [| it rest IH]; simpl; intros st w st' w' H.
  - inversion H; subst. lia.
  - destruct (loop_body input outDir it st w) as [[st1 w1] | e] eqn:Hb;
      [| discriminate].
    rewrite (IH _ _ _ _ H), (loop_body_skipped _ _ _ _ _ _ _ Hb).
    destruct (timestamp_unusable it); simpl; lia.
Qed.

End Report.

Lemma filterAndCopy_report_invariant_witness :
  filterAndCopy (P := Sim.platform) (js "/out")
    (Sim.no_filter "Seoul trip: day 1!") Sim.sample_world
  = Ok (Sim.sample_report, Sim.sample_world_after)
  /\ matched Sim.sample_report = length (files Sim.sample_report)
  /\ (scanned Sim.sample_report
      >= matched Sim.sample_report + skipped_missing_meta Sim.sample_report)%nat.
Proof.
  assert (H : filterAndCopy (P := Sim.platform) (js "/out")
                (Sim.no_filter "Seoul trip: day 1!") Sim.sample_world
              = Ok (Sim.sample_report, Sim.sample_world_after))
    by (vm_compute; reflexivity).
  split; [exact H |].
  destruct (filterAndCopy_report_invariant (P := Sim.platform) _ _ _ _ _ H)
    as [Hm [Hs _]].
  split; assumption.
Defined.

(* ================================================================= *)
(** ** The time stamp *)

Lemma digits_sound n : forall s d rest,
  digits n s = Some (d, rest) -> s = d ++ rest /\ digit_string n d.
Proof.
  induction n as [| n IH]; simpl; intros s d rest H.
  - inversion H; subst. repeat split. constructor.
  - destruct s as [| c r]; [discriminate |].
    destruct (is_digit c) eqn:Hc; [| discriminate].
    destruct (digits n r) as [[d' rest'] |] eqn:Hd; [| discriminate].
    inversion H; subst; clear H.
    destruct (IH _ _ _ Hd) as [-> [Hlen Hall]].
    repeat split; simpl; auto.
Qed.

Lemma digits_complete n : forall d rest,
  digit_string n d -> digits n (d ++ rest) = Some (d, rest).
Proof.
  induction n as [| n IH]; intros d rest [Hlen Hall].
  - destruct d; [reflexivity | discriminate].
  - destruct d as [| c d]; [discriminate |].
    inversion Hall; subst. simpl in *.
    rewrite H1, IH; [reflexivity |].
    split; [lia | assumption].
Qed.

Lemma char_sound p s r :
  char p s = Some r -> exists c, s = c :: r /\ p c = true.
Proof.
  destruct s as [| c s]; simpl; [discriminate |].
  destruct (p c) eqn:Hp; [| discriminate].
  intro H; inversion H; subst. eauto.
Qed.

Lemma is_colon_eq c : is_colon c = true -> c = colon.
Proof. apply N.eqb_eq. Qed.

Lemma is_sep_eq c : is_sep c = true -> c = 32%N \/ c = 84%N.
Proof.
  unfold is_sep. rewrite orb_true_iff, !N.eqb_eq. tauto.
Qed.

Lemma seconds_then_end_sound s :
  seconds_then_end s = Some tt ->
  s = [] \/ exists ss, s = colon :: ss /\ digit_string 2 ss.
Proof.
  destruct s as [| c s]; [auto |]. intro H. right.
  unfold seconds_then_end in H.
  destruct (char is_colon (c :: s)) as [s1 |] eqn:H1; [| discriminate].
  destruct (digits 2 s1) as [[ss s2] |] eqn:H2; [| discriminate].
  destruct s2; [| discriminate].
  apply char_sound in H1. destruct H1 as [c' [E Hc]].
  inversion E; subst. apply is_colon_eq in Hc. subst c'.
  apply digits_sound in H2. destruct H2 as [-> Hd].
  rewrite app_nil_r. eauto.
Qed.

Ltac step_char H :=
  match type of H with
  | context [char ?p ?s] =>
      let s' := fresh "s" in
      let E := fresh "E" in
      let c := fresh "c" in
      let Hc := fresh "Hc" in
      destruct (char p s) as [s' |] eqn:E; [| discriminate H];
      apply char_sound in E; destruct E as [c [-> Hc]]
  end.

Ltac step_digits H :=
  match type of H with
  | context [digits ?n ?s] =>
      let d := fresh "d" in
      let s' := fresh "s" in
      let E := fresh "E" in
      let Hd := fresh "Hd" in
      destruct (digits n s) as [[d s'] |] eqn:E; [| discriminate H];
      apply digits_sound in E; destruct E as [-> Hd]
  end.

(** The parser accepts exactly the strings of the pattern. *)
Lemma parseExifDateTime_pattern s :
  (exists p, parseExifDateTime s = Some p) <-> exif_pattern s.
Proof.
  split.
  - intros [p H]. unfold parseExifDateTime in H.
    step_digits H. step_char H. step_digits H. step_char H. step_digits H.
    step_char H. step_digits H. step_char H. step_digits H.
    match type of H with
    | context [seconds_then_end ?t] =>
        destruct (seconds_then_end t) as [[] |] eqn:Hs; [| discriminate];
        apply seconds_then_end_sound in Hs
    end.
    repeat match goal with
           | Hc : is_colon _ = true |- _ => apply is_colon_eq in Hc; subst
           | Hc : is_sep _ = true |- _ => apply is_sep_eq in Hc
           end.
    unfold exif_pattern. do 7 eexists.
    split; [reflexivity |]. tauto.
  - intros (y & mo & d & sep & hh & mm & tail & -> & Hy & Hmo & Hd & Hsep
            & Hhh & Hmm & Htail).
    unfold parseExifDateTime.
    rewrite (digits_complete _ _ _ Hy). simpl char; cbv beta iota.
    rewrite (digits_complete _ _ _ Hmo). simpl char; cbv beta iota.
    rewrite (digits_complete _ _ _ Hd).
    assert (Hs : is_sep sep = true) by (destruct Hsep; subst; reflexivity).
    unfold char at 1. rewrite Hs; cbv beta iota.
    rewrite (digits_complete _ _ _ Hhh). simpl char; cbv beta iota.
    rewrite (digits_complete _ _ _ Hmm).
    destruct Htail as [-> | [ss [-> Hss]]].
    + simpl. eauto.
    + unfold seconds_then_end. simpl char; cbv beta iota.
      rewrite <- (app_nil_r ss), (digits_complete _ _ _ Hss). eauto.
Qed.

Lemma parseExifDateTime_none s :
  ~ exif_pattern s -> parseExifDateTime s = None.
Proof.
  intro H. destruct (parseExifDateTime s) as [p |] eqn:E; [| reflexivity].
  exfalso. apply H, parseExifDateTime_pattern. eauto.
Qed.

Lemma timestamp_unusable_iff (it : ExifData) :
  timestamp_unusable it = true
  <-> (DateTimeOriginal it = None
       \/ exists dto, DateTimeOriginal it = Some dto /\ ~ exif_pattern dto).
Proof.
  unfold timestamp_unusable. split.
  - destruct (DateTimeOriginal it) as [dto |]; [| auto]. intro H. right.
    exists dto. split; [reflexivity |]. intro Hp.
    apply parseExifDateTime_pattern in Hp. destruct Hp as [p Hp].
    simpl in H. rewrite Hp in H. simpl in H.
    destruct dto; [discriminate Hp | discriminate H].
  - intros [H | [dto [H Hn]]]; rewrite H; [reflexivity |]. simpl.
    rewrite (parseExifDateTime_none _ Hn). apply orb_true_r.
Qed.

(** C2. A record whose time stamp is absent, or does not match the
    pattern, is counted as scanned and as skipped and nothing else happens
    to it, whatever the filter is: no dimension of the filter is looked at,
    no file is touched.  The [skipped_missing_meta] of a report is the
    number of such records. *)
Theorem unparsable_timestamp_is_skipped {P : Platform} :
  (forall (input : FilterAndCopyInput) (outDir : jsstring) (it : ExifData)
          (st : LoopState) (w : world),
      (DateTimeOriginal it = None
       \/ exists dto, DateTimeOriginal it = Some dto /\ ~ exif_pattern dto) ->
      loop_body input outDir it st w
      = Ok ({| st_scanned := S (st_scanned st); st_matched := st_matched st;
               st_skipped := S (st_skipped st); st_files := st_files st |}, w))
  /\ (forall outRoot input w rep w',
         filterAndCopy outRoot input w = Ok (rep, w') ->
         exists w1 items w2,
           mkdir (output_dir rep) w = Ok w1
           /\ exiftoolIndex (or_empty (base_dir input)) w1 = Ok (items, w2)
           /\ skipped_missing_meta rep
              = length (filter timestamp_unusable items))
  /\ (forall it,
         timestamp_unusable it = true
         <-> (DateTimeOriginal it = None
              \/ exists dto,
                   DateTimeOriginal it = Some dto /\ ~ exif_pattern dto)).
Proof.
  split; [| split; [| exact timestamp_unusable_iff]].
  - intros input outDir it st w [H | [dto [H Hn]]];
      unfold loop_body; rewrite H; simpl.
    + reflexivity.
    + rewrite (parseExifDateTime_none _ Hn).
      destruct dto; reflexivity.
  - intros outRoot input w rep w' H.
    destruct (filterAndCopy_run _ _ _ _ _ H)
      as (w1 & items & w2 & st & Hmk & Hex & Hl & Hrep).
    exists w1, items, w2. repeat split; try assumption.
    rewrite Hrep. simpl. rewrite (loop_skipped _ _ _ _ _ _ _ Hl).
    reflexivity.
Qed.

Lemma not_exif_pattern_short : ~ exif_pattern (js "2024:01:15").
Proof.
  intro H. apply parseExifDateTime_pattern in H. destruct H as [p H].
  vm_compute in H. discriminate.
Qed.

Lemma unparsable_timestamp_is_skipped_witness :
  loop_body (P := Sim.platform) (Sim.no_filter "x") (js "/out")
    (Sim.photo "/photos/a.jpg" "2024:01:15")
    {| st_scanned := 4; st_matched := 2; st_skipped := 1; st_files := [[]; []] |}
    Sim.sample_world
  = Ok ({| st_scanned := 5; st_matched := 2; st_skipped := 2;
           st_files := [[]; []] |}, Sim.sample_world).
Proof.
  apply (proj1 (unparsable_timestamp_is_skipped (P := Sim.platform))).
  right. exists (js "2024:01:15"). split; [reflexivity |].
  exact not_exif_pattern_short.
Defined.

(* ================================================================= *)
(** ** Absent dimensions *)

Section Dimensions.
Context {P : Platform}.

Lemma inDateRange_unbounded d : inDateRange d (Some []) (Some []) = true.
Proof. reflexivity. Qed.

Lemma check_date_range_dimension input p r :
  check_date_range input p = Some r -> dimension_of r = DateRangeDim.
Proof.
  unfold check_date_range. destruct (inDateRange _ _ _); [discriminate |].
  intro H; inversion H; reflexivity.
Qed.

Lemma check_time_of_day_dimension input p r :
  check_time_of_day input p = Some r -> dimension_of r = TimeOfDayDim.
Proof.
  unfold check_time_of_day. destruct (time_of_day input); [| discriminate].
  destruct (inTimeWindow _ _ _); [discriminate |].
  intro H; inversion H; reflexivity.
Qed.

Lemma check_iso_dimension input it r :
  check_iso input it = Some r -> dimension_of r = IsoDim.
Proof.
  unfold check_iso. destruct (iso input); [| discriminate].
  destruct (ISO it); [| discriminate].
  destruct (negb _); [| intro H; inversion H; reflexivity].
  destruct (negb _); [discriminate | intro H; inversion H; reflexivity].
Qed.

Lemma check_artist_dimension input it r :
  check_artist input it = Some r -> dimension_of r = ArtistDim.
Proof.
  unfold check_artist. destruct (guard _ _); [| discriminate].
  destruct (negb _); [discriminate | intro H; inversion H; reflexivity].
Qed.

Lemma check_camera_dimension input it r :
  check_camera input it = Some r -> dimension_of r = CameraDim.
Proof.
  unfold check_camera. destruct (camera input); [| discriminate].
  destruct (negb _); [| intro H; inversion H; reflexivity].
  destruct (negb _); [discriminate | intro H; inversion H; reflexivity].
Qed.

Lemma check_location_dimension input it r :
  check_location input it = Some r -> dimension_of r = LocationDim.
Proof.
  unfold check_location. destruct (location input) as [l |]; [| discriminate].
  destruct (hasBbox l || hasCenterRadius l); [| discriminate].
  destruct (GPSLatitude it); [| intro H; inversion H; reflexivity].
  destruct (GPSLongitude it); [| intro H; inversion H; reflexivity].
  destruct (hasCenterRadius l).
  - destruct (center l); [| discriminate].
    destruct (radius_m l); [| discriminate].
    destruct (number_gt _ _); [intro H; inversion H; reflexivity | discriminate].
  - destruct (bbox l) as [[[[a b] c] d] |]; [| discriminate].
    destruct (_ && _); [discriminate | intro H; inversion H; reflexivity].
Qed.

Lemma check_altitude_dimension input it r :
  check_altitude input it = Some r -> dimension_of r = AltitudeDim.
Proof.
  unfold check_altitude. destruct (altitude input); [| discriminate].
  destruct (_ || _); [| discriminate].
  destruct (GPSAltitude it); [| intro H; inversion H; reflexivity].
  destruct (negb _); [| intro H; inversion H; reflexivity].
  destruct (negb _); [discriminate | intro H; inversion H; reflexivity].
Qed.

(** A record the matcher skips is skipped by the block of the reason. *)
Lemma matchRecord_skip input it p r :
  matchRecord input it p = Some r ->
  check_dimension (dimension_of r) input it p = Some r.
Proof.
  unfold matchRecord. intro H.
  destruct (check_date_range input p) eqn:E1.
  { inversion H; subst. rewrite (check_date_range_dimension _ _ _ E1). exact E1. }
  destruct (check_time_of_day input p) eqn:E2.
  { inversion H; subst. rewrite (check_time_of_day_dimension _ _ _ E2). exact E2. }
  destruct (check_iso input it) eqn:E3.
  { inversion H; subst. rewrite (check_iso_dimension _ _ _ E3). exact E3. }
  destruct (check_artist input it) eqn:E4.
  { inversion H; subst. rewrite (check_artist_dimension _ _ _ E4). exact E4. }
  destruct (check_camera input it) eqn:E5.
  { inversion H; subst. rewrite (check_camera_dimension _ _ _ E5). exact E5. }
  destruct (check_location input it) eqn:E6.
  { inversion H; subst. rewrite (check_location_dimension _ _ _ E6). exact E6. }
  rewrite (check_altitude_dimension _ _ _ H). exact H.
Qed.

(** C3. A dimension that is absent from the filter lets every record with
    a parsable time stamp through: its block skips nothing, and no record
    the matcher skips is skipped for that dimension. *)
Theorem absent_dimension_never_excludes (d : Dimension)
    (input : FilterAndCopyInput) (it : ExifData) (p : ParsedDateTime) :
  absent d input ->
  check_dimension d input it p = None
  /\ forall r, matchRecord input it p = Some r -> dimension_of r <> d.
Proof.
  intro Habs.
  assert (Hnone : check_dimension d input it p = None).
  { destruct d; simpl in *.
    - unfold check_date_range. rewrite Habs. reflexivity.
    - unfold check_time_of_day. rewrite Habs. reflexivity.
    - unfold check_iso. rewrite Habs. reflexivity.
    - unfold check_artist. rewrite Habs. reflexivity.
    - unfold check_camera. rewrite Habs. reflexivity.
    - unfold check_location. rewrite Habs. reflexivity.
    - unfold check_altitude. rewrite Habs. reflexivity. }
  split; [exact Hnone |].
  intros r Hr Hd. apply matchRecord_skip in Hr.
  rewrite Hd, Hnone in Hr. discriminate.
Qed.

(** C10. A location that gives a centre without a radius, and no bounding
    box, skips no record: not even one without GPS coordinates. *)
Theorem center_without_radius_excludes_nothing
    (input : FilterAndCopyInput) (l : Location) (c : Center) (it : ExifData) :
  location input = Some l ->
  center l = Some c -> radius_m l = None -> bbox l = None ->
  check_location input it = None.
Proof.
  intros Hl Hc Hr Hb. unfold check_location, hasBbox, hasCenterRadius.
  rewrite Hl, Hc, Hr, Hb. reflexivity.
Qed.

End Dimensions.

Lemma absent_dimension_never_excludes_witness :
  check_dimension (P := Sim.platform) LocationDim (Sim.no_filter "x")
    (Sim.photo "/photos/a.jpg" "2024:01:15 10:00:00")
    {| dateStr := js "2024-01-15"; hhmm := js "10:00" |} = None.
Proof.
  apply (absent_dimension_never_excludes (P := Sim.platform) LocationDim).
  reflexivity.
Defined.

Lemma center_without_radius_excludes_nothing_witness :
  check_location (P := Sim.platform)
    (set_location (Sim.no_filter "x")
       (Some {| bbox := None; center := Some {| lat := 37.5512; lon := 126.9882 |};
                radius_m := None |}))
    (Sim.photo "/photos/a.jpg" "2024:01:15 10:00:00") = None.
Proof.
  eapply (center_without_radius_excludes_nothing (P := Sim.platform));
    reflexivity.
Defined.

(* ================================================================= *)
(** ** Comparisons of numbers *)

Lemma Qltb_lt a b : Qltb a b = true <-> (a < b)%Q.
Proof. unfold Qltb, Qlt. apply Z.ltb_lt. Qed.

Lemma Qltb_ge a b : Qltb a b = false <-> (b <= a)%Q.
Proof. unfold Qltb, Qle. rewrite Z.ltb_ge. reflexivity. Qed.

Lemma Qgtb_le a b : Qgtb a b = false <-> (a <= b)%Q.
Proof. unfold Qgtb. apply Qltb_ge. Qed.

Lemma Qgeb_ge a b : Qgeb a b = true <-> (b <= a)%Q.
Proof. unfold Qgeb. apply Qle_bool_iff. Qed.

Lemma Qleb_le a b : Qleb a b = true <-> (a <= b)%Q.
Proof. unfold Qleb. apply Qle_bool_iff. Qed.

Lemma positive_is_truthy r : (0 < r)%Q -> Qeq_bool r 0 = false.
Proof.
  intro H. destruct (Qeq_bool r 0) eqn:E; [| reflexivity].
  apply Qeq_bool_iff in E. rewrite E in H. exfalso. exact (Qlt_irrefl 0 H).
Qed.

(* ================================================================= *)
(** ** Altitude *)

Lemma lower_bound_check (alt : Q) (bound : option Q) :
  negb (match bound with Some m => Qltb alt m | None => false end) = true
  <-> (forall m, bound = Some m -> (m <= alt)%Q).
Proof.
  destruct bound as [m |]; simpl.
  - rewrite negb_true_iff, Qltb_ge. split.
    + intros H m' E. inversion E; subst. exact H.
    + intro H. apply H. reflexivity.
  - split; [discriminate | reflexivity].
Qed.

Lemma upper_bound_check (alt : Q) (bound : option Q) :
  negb (match bound with Some m => Qgtb alt m | None => false end) = true
  <-> (forall m, bound = Some m -> (alt <= m)%Q).
Proof.
  destruct bound as [m |]; simpl.
  - rewrite negb_true_iff, Qgtb_le. split.
    + intros H m' E. inversion E; subst. exact H.
    + intro H. apply H. reflexivity.
  - split; [discriminate | reflexivity].
Qed.

(** C6. With an altitude bound in the filter, a record without altitude
    is skipped; one with an altitude passes exactly when its effective
    altitude is within the bounds, both inclusive.  The effective altitude
    is the recorded one, negated exactly when the reference flag is 1:
    altitude 10 with flag 1 is compared as -10, and is below a minimum
    of 0. *)
Theorem altitude_dimension :
  (forall input range it,
      altitude input = Some range ->
      alt_min range <> None \/ alt_max range <> None ->
      match GPSAltitude it with
      | None => check_altitude input it = Some SkipAltitudeMissing
      | Some galt =>
          check_altitude input it = None <->
          (forall m, alt_min range = Some m ->
                     (m <= effective_altitude galt (GPSAltitudeRef it))%Q)
          /\ (forall m, alt_max range = Some m ->
                        (effective_altitude galt (GPSAltitudeRef it) <= m)%Q)
      end)
  /\ (forall galt ref,
         ((exists r, ref = Some r /\ (r == 1)%Q) ->
          effective_altitude galt ref = (- galt)%Q)
         /\ (~ (exists r, ref = Some r /\ (r == 1)%Q) ->
             effective_altitude galt ref = galt))
  /\ effective_altitude 10 (Some 1%Q) = (-10)%Q
  /\ check_altitude
       (set_altitude (Sim.no_filter "x")
          {| alt_min := Some 0%Q; alt_max := None |})
       (Sim.at_altitude (Sim.photo "/photos/a.jpg" "2024:01:15 10:00:00")
          10 (Some 1%Q))
     = Some SkipAltitudeMin.
Proof.
  split; [| split; [| split; reflexivity]].
  - intros input range it Hin Hb. unfold check_altitude. rewrite Hin.
    assert (Hp : is_some (alt_min range) || is_some (alt_max range) = true).
    { destruct (alt_min range), (alt_max range); simpl; try reflexivity.
      destruct Hb as [Hb | Hb]; exfalso; apply Hb; reflexivity. }
    rewrite Hp. destruct (GPSAltitude it) as [galt |]; [| reflexivity].
    set (alt := effective_altitude galt (GPSAltitudeRef it)).
    rewrite <- lower_bound_check, <- upper_bound_check.
    destruct (negb match alt_min range with
                   | Some m => Qltb alt m | None => false end);
      destruct (negb match alt_max range with
                     | Some m => Qgtb alt m | None => false end);
      (split; intro H; [try discriminate H; auto | destruct H; try discriminate; reflexivity]).
  - intros galt ref. unfold effective_altitude. split.
    + intros [r [-> Hr]]. apply Qeq_bool_iff in Hr. rewrite Hr. reflexivity.
    + intro Hn. destruct ref as [r |]; [| reflexivity].
      destruct (Qeq_bool r 1) eqn:E; [| reflexivity].
      exfalso. apply Hn. exists r. split; [reflexivity |].
      apply Qeq_bool_iff. exact E.
Qed.

Lemma altitude_dimension_witness :
  check_altitude
    (set_altitude (Sim.no_filter "x")
       {| alt_min := Some (-50)%Q; alt_max := Some 0%Q |})
    (Sim.at_altitude (Sim.photo "/photos/a.jpg" "2024:01:15 10:00:00")
       10 (Some 1%Q))
  = None.
Proof.
  apply (proj1 altitude_dimension
           (set_altitude (Sim.no_filter "x")
              {| alt_min := Some (-50)%Q; alt_max := Some 0%Q |})
           {| alt_min := Some (-50)%Q; alt_max := Some 0%Q |}
           (Sim.at_altitude (Sim.photo "/photos/a.jpg" "2024:01:15 10:00:00")
              10 (Some 1%Q))).
  - reflexivity.
  - left. discriminate.
  - split; intros m E; inversion E; subst; vm_compute; discriminate.
Defined.

(* ================================================================= *)
(** ** Location *)

(** C7. When the bounding box is the constraint in force, a record passes
    the block exactly when it has coordinates with
    [minLon <= lon <= maxLon] and [minLat <= lat <= maxLat]; a record with
    neither latitude nor longitude is skipped under any geo constraint.
    For the box [126.76, 37.4, 127.18, 37.7] the point (lon 126.98,
    lat 37.55) passes and (lon 125.0, lat 37.55) is skipped. *)
Theorem bbox_dimension {P : Platform} :
  (forall input l minLon minLat maxLon maxLat it,
      location input = Some l ->
      bbox l = Some (minLon, minLat, maxLon, maxLat) ->
      hasCenterRadius l = false ->
      (check_location input it = None <->
       exists glat glon,
         GPSLatitude it = Some glat /\ GPSLongitude it = Some glon
         /\ (minLon <= glon)%Q /\ (glon <= maxLon)%Q
         /\ (minLat <= glat)%Q /\ (glat <= maxLat)%Q))
  /\ (forall input l it,
         location input = Some l ->
         hasBbox l || hasCenterRadius l = true ->
         GPSLatitude it = None -> GPSLongitude it = None ->
         check_location input it = Some SkipGpsMissing)
  /\ check_location (set_location (Sim.no_filter "x") (Some seoul_bbox))
       (Sim.at_point some_photo 37.55 126.98) = None
  /\ check_location (set_location (Sim.no_filter "x") (Some seoul_bbox))
       (Sim.at_point some_photo 37.55 125.0) = Some SkipGpsOutsideBbox.
Proof.
  split; [| split; [| split; reflexivity]].
  - intros input l minLon minLat maxLon maxLat it Hl Hb Hcr.
    unfold check_location. rewrite Hl. unfold hasBbox. rewrite Hb, Hcr. simpl.
    destruct (GPSLatitude it) as [glat |];
      [| split; [discriminate | intros (? & ? & ? & _); discriminate]].
    destruct (GPSLongitude it) as [glon |];
      [| split; [discriminate | intros (? & ? & _ & ? & _); discriminate]].
    destruct (Qgeb glon minLon && Qleb glon maxLon
              && Qgeb glat minLat && Qleb glat maxLat) eqn:E.
    + split; [intros _ | reflexivity].
      rewrite !andb_true_iff, !Qgeb_ge, !Qleb_le in E.
      exists glat, glon. tauto.
    + split; [discriminate |].
      intros (glat' & glon' & E1 & E2 & H1 & H2 & H3 & H4).
      inversion E1; inversion E2; subst.
      apply Qgeb_ge in H1, H3. apply Qleb_le in H2, H4.
      rewrite H1, H2, H3, H4 in E. discriminate.
  - intros input l it Hl Hg Hlat Hlon.
    unfold check_location. rewrite Hl, Hg, Hlat. reflexivity.
Qed.

Lemma bbox_dimension_witness :
  check_location (P := Sim.platform)
    (set_location (Sim.no_filter "x") (Some seoul_bbox))
    (Sim.at_point some_photo 37.4 127.18) = None.
Proof.
  apply (proj1 (bbox_dimension (P := Sim.platform))
           (set_location (Sim.no_filter "x") (Some seoul_bbox)) seoul_bbox
           126.76 37.4 127.18 37.7 (Sim.at_point some_photo 37.4 127.18)%Q);
    try reflexivity.
  exists 37.4%Q, 127.18%Q.
  repeat split; vm_compute; discriminate.
Defined.

Lemma number_gt_nan (d : float) (r : Q) :
  PrimFloat.is_nan d = true -> number_gt d r = false.
Proof.
  intro H. unfold number_gt, Prim2SF. rewrite H. reflexivity.
Qed.

Lemma number_gt_larger (d : float) (r r' : Q) :
  (r <= r')%Q -> number_gt d r = false -> number_gt d r' = false.
Proof.
  intro Hle. unfold number_gt.
  destruct (Prim2SF d) as [s | s | | s m e]; auto;
    rewrite !Qltb_ge; intro H; eapply Qle_trans; eassumption.
Qed.

Section Radius.
Context {P : Platform}.

Lemma radius_in_force (l : Location) (c : Center) (r : Q) :
  center l = Some c -> radius_m l = Some r -> (0 < r)%Q ->
  hasCenterRadius l = true.
Proof.
  intros Hc Hr Hpos. unfold hasCenterRadius.
  rewrite Hc, Hr, (positive_is_truthy _ Hpos). reflexivity.
Qed.

(** With a centre and a positive radius the block compares the computed
    distance with the radius and looks at nothing else. *)
Lemma check_location_radius (input : FilterAndCopyInput) (l : Location)
    (c : Center) (r : Q) (it : ExifData) :
  location input = Some l ->
  center l = Some c -> radius_m l = Some r -> (0 < r)%Q ->
  check_location input it
  = match GPSLatitude it, GPSLongitude it with
    | Some glat, Some glon =>
        if number_gt (distance_from c glat glon) r
        then Some SkipGpsOutsideRadius else None
    | _, _ => Some SkipGpsMissing
    end.
Proof.
  intros Hl Hc Hr Hpos. unfold check_location.
  rewrite Hl, (radius_in_force l c r Hc Hr Hpos), orb_true_r, Hc, Hr.
  reflexivity.
Qed.

(** C4, at the input where the code departs from it.  The filter gives the
    centre (12, 0) with a radius of 500 metres, and a bounding box; the
    record is at the antipodes (-12, 180), outside the box and half the
    circumference away in exact arithmetic.  With the library as it is
    in V8 the computed distance is NaN, [dist > radius] is false and the
    record passes the location block. *)
Theorem radius_check_passes_at_antipodes :
  library_at_antipodes ->
  check_location (set_location (Sim.no_filter "x") (Some around_12_0))
    at_antipodes = None
  /\ PrimFloat.is_nan (distance_from {| lat := 12; lon := 0 |} (-12) 180)
     = true
  /\ (500 < haversine_exact 12 0 (-12) 180)%R.
Proof.
  intro H. destruct (haversineMeters_at_antipodes H) as [E _].
  assert (Ed : distance_from {| lat := 12; lon := 0 |} (-12) 180 = nan).
  { unfold distance_from. simpl lat. simpl lon.
    change (Q2F 12) with 12%float. change (Q2F 0) with 0%float.
    change (Q2F (-12)) with (-12)%float. change (Q2F 180) with 180%float.
    exact E. }
  split; [| split].
  - rewrite (check_location_radius _ around_12_0 {| lat := 12; lon := 0 |} 500);
      try reflexivity.
    simpl GPSLatitude. simpl GPSLongitude. cbv iota. rewrite Ed. reflexivity.
  - rewrite Ed. reflexivity.
  - rewrite haversine_exact_antipodes. pose proof PI2_3_2. lra.
Qed.

End Radius.

Lemma radius_check_passes_at_antipodes_witness :
  check_location (P := Sim.platform)
    (set_location (Sim.no_filter "x") (Some around_12_0)) at_antipodes
  = None.
Proof.
  apply (radius_check_passes_at_antipodes (P := Sim.platform)).
  exact sim_library_at_antipodes.
Defined.

(* ================================================================= *)
(** ** The order on strings and the time window *)

Lemma str_ltb_lt : forall a b, str_ltb a b = true <-> lex_lt a b.
Proof.
  induction a as [| x a IH]; intros [| y b]; simpl.
  - split; [discriminate | intro H; inversion H].
  - split; [intros _; constructor | reflexivity].
  - split; [discriminate | intro H; inversion H].
  - destruct (N.ltb_spec x y) as [Hxy | Hxy].
    + split; [intros _; apply lex_lt_head; exact Hxy | reflexivity].
    + destruct (N.ltb_spec y x) as [Hyx | Hyx].
      * split; [discriminate |].
        intro H; inversion H; subst; lia.
      * assert (x = y) by lia. subst y. rewrite IH. split.
        -- apply lex_lt_tail.
        -- intro H; inversion H; subst; [lia | assumption].
Qed.

Lemma lex_lt_irrefl : forall a, ~ lex_lt a a.
Proof.
  induction a as [| x a IH]; intro H; inversion H; subst; [lia | auto].
Qed.

Lemma lex_lt_trans : forall a b c, lex_lt a b -> lex_lt b c -> lex_lt a c.
Proof.
  intros a b c Hab. revert c.
  induction Hab as [y b | x y a b Hxy | x a b Hab IH]; intros c Hbc;
    inversion Hbc; subst.
  - constructor.
  - constructor.
  - apply lex_lt_head. lia.
  - apply lex_lt_head. assumption.
  - apply lex_lt_head. assumption.
  - apply lex_lt_tail. auto.
Qed.

Lemma lex_le_lt_trans a b c : lex_le a b -> lex_lt b c -> lex_lt a c.
Proof. intros [-> | H] Hbc; [assumption | eapply lex_lt_trans; eauto]. Qed.

Lemma lex_le_nil : forall a, lex_le [] a.
Proof. intros [| x a]; [left; reflexivity | right; constructor]. Qed.

Lemma str_ltb_ge : forall a b, str_ltb a b = false <-> lex_le b a.
Proof.
  intros a b. split.
  - revert b. induction a as [| x a IH]; intros [| y b]; simpl; intro H.
    + left; reflexivity.
    + discriminate.
    + apply lex_le_nil.
    + destruct (N.ltb_spec x y) as [Hxy | Hxy]; [discriminate |].
      destruct (N.ltb_spec y x) as [Hyx | Hyx].
      * right. apply lex_lt_head. assumption.
      * assert (x = y) by lia. subst y.
        destruct (IH _ H) as [-> | Hlt]; [left; reflexivity |].
        right. apply lex_lt_tail. assumption.
  - intro Hle. destruct (str_ltb a b) eqn:E; [| reflexivity].
    apply str_ltb_lt in E. exfalso.
    apply (lex_lt_irrefl b). eapply lex_le_lt_trans; eauto.
Qed.

Lemma guard_from_le (h : jsstring) (from : option jsstring) :
  guard from (fun f => str_ltb h f) = false
  <-> (forall f, from = Some f -> f <> [] -> lex_le f h).
Proof.
  destruct from as [[| c r] |]; simpl.
  - split; [| reflexivity]. intros _ f E Hne. inversion E; subst.
    exfalso. apply Hne. reflexivity.
  - rewrite (str_ltb_ge h (c :: r)). split.
    + intros H f E _. inversion E; subst. exact H.
    + intro H. apply H; [reflexivity | discriminate].
  - split; [discriminate | reflexivity].
Qed.

Lemma guard_to_le (h : jsstring) (to : option jsstring) :
  guard to (fun t => str_gtb h t) = false
  <-> (forall t, to = Some t -> t <> [] -> lex_le h t).
Proof.
  destruct to as [[| c r] |]; simpl.
  - split; [| reflexivity]. intros _ t E Hne. inversion E; subst.
    exfalso. apply Hne. reflexivity.
  - unfold str_gtb. rewrite (str_ltb_ge (c :: r) h). split.
    + intros H t E _. inversion E; subst. exact H.
    + intro H. apply H; [reflexivity | discriminate].
  - split; [discriminate | reflexivity].
Qed.

Lemma inTimeWindow_guards (h : jsstring) (from to : option jsstring) :
  inTimeWindow h from to
  = negb (guard from (fun f => str_ltb h f))
    && negb (guard to (fun t => str_gtb h t)).
Proof.
  unfold inTimeWindow.
  destruct from as [[| c r] |], to as [[| c' r'] |]; simpl; try reflexivity;
    destruct (str_ltb h (c :: r)); try reflexivity;
    destruct (str_gtb h (c' :: r')); reflexivity.
Qed.

(** The two guards of [inTimeWindow] read as order.  A bound that is
    absent, or the empty string, leaves its side open; a bound that is
    given is compared inclusively in the lexicographic order; and a window
    whose [to] is a non-empty string smaller than [from] matches no
    time. *)
Lemma inTimeWindow_inclusive (hhmm : jsstring) (from to : option jsstring) :
  (inTimeWindow hhmm from to = true <->
   (forall f, from = Some f -> f <> [] -> lex_le f hhmm)
   /\ (forall t, to = Some t -> t <> [] -> lex_le hhmm t))
  /\ (forall f t, from = Some f -> to = Some t -> t <> [] -> lex_lt t f ->
                  inTimeWindow hhmm from to = false).
Proof.
  assert (Hiff : inTimeWindow hhmm from to = true <->
                 (forall f, from = Some f -> f <> [] -> lex_le f hhmm)
                 /\ (forall t, to = Some t -> t <> [] -> lex_le hhmm t)).
  { rewrite inTimeWindow_guards, andb_true_iff, !negb_true_iff.
    rewrite guard_from_le, guard_to_le. reflexivity. }
  split; [exact Hiff |].
  intros f t Hf Ht Hne Hlt.
  destruct (inTimeWindow hhmm from to) eqn:E; [| reflexivity].
  exfalso. destruct (proj1 Hiff eq_refl) as [Hfrom Hto].
  assert (Hf_ne : f <> []) by (intros ->; inversion Hlt).
  apply (lex_lt_irrefl f).
  eapply lex_le_lt_trans; [exact (Hfrom _ Hf Hf_ne) |].
  eapply lex_le_lt_trans; [exact (Hto _ Ht Hne) | exact Hlt].
Qed.

(** C5.  For every window whose [to] is a time string, or is absent (the
    empty string is how the callers pass no bound, and is no time), the
    match is the inclusive lexicographic comparison [from <= hhmm <= to],
    with an absent bound leaving its side open; and when [to] is smaller
    than [from] no time string matches. *)
Theorem inTimeWindow_inclusive_lexicographic (hhmm : jsstring)
    (from to : option jsstring) :
  to <> Some [] ->
  (inTimeWindow hhmm from to = true <->
   (forall f, from = Some f -> lex_le f hhmm)
   /\ (forall t, to = Some t -> lex_le hhmm t))
  /\ (forall f t, from = Some f -> to = Some t -> lex_lt t f ->
                  inTimeWindow hhmm from to = false).
Proof.
  intro Hto.
  destruct (inTimeWindow_inclusive hhmm from to) as [Hiff Hinv].
  split.
  - rewrite Hiff. split; intros [Hf Ht]; split.
    + intros f E. destruct f as [| c r]; [apply lex_le_nil |].
      apply (Hf _ E). discriminate.
    + intros t E. apply (Ht _ E). intros ->. exact (Hto E).
    + intros f E _. exact (Hf _ E).
    + intros t E _. exact (Ht _ E).
  - intros f t Ef Et Hlt. apply (Hinv f t Ef Et); [| exact Hlt].
    intros ->. exact (Hto Et).
Qed.

Lemma inTimeWindow_inclusive_lexicographic_witness :
  Some (js "06:00") <> Some []
  /\ inTimeWindow (js "23:30") (Some (js "22:00")) (Some (js "06:00")) = false.
Proof.
  assert (H : Some (js "06:00") <> Some (@nil codeunit)) by discriminate.
  split; [exact H |].
  apply (proj2 (inTimeWindow_inclusive_lexicographic (js "23:30")
                  (Some (js "22:00")) (Some (js "06:00")) H)
           (js "22:00") (js "06:00") eq_refl eq_refl).
  apply str_ltb_lt. reflexivity.
Defined.

(** The empty string as [to] is read as no bound: the window from 12:00
    to the empty string matches 13:00. *)
Lemma inTimeWindow_empty_to_open :
  inTimeWindow (js "13:00") (Some (js "12:00")) (Some []) = true.
Proof. reflexivity. Qed.

(* ================================================================= *)
(** ** The slug *)

Section Runs.
Variable p : codeunit -> bool.

Lemma runs_head c r :
  exists run rest, runs p (c :: r) = (p c, c :: run) :: rest.
Proof.
  simpl. destruct (runs p r) as [| [b run] rest]; [eauto |].
  destruct (Bool.eqb (p c) b) eqn:E; [| eauto].
  apply eqb_prop in E. subst b. eauto.
Qed.

(** A code unit outside [p] is copied. *)
Lemma rewrite_runs_keep g c r :
  p c = false -> rewrite_runs p g (c :: r) = c :: rewrite_runs p g r.
Proof.
  intro Hc. unfold rewrite_runs. simpl runs.
  destruct (runs p r) as [| [b run] rest]; rewrite Hc.
  - reflexivity.
  - destruct b; reflexivity.
Qed.

(** A code unit of [p] in front of a run of [p] joins the run. *)
Lemma runs_extend c c' r :
  p c = true -> p c' = true ->
  exists run rest,
    runs p (c' :: r) = (true, c' :: run) :: rest
    /\ runs p (c :: c' :: r) = (true, c :: c' :: run) :: rest.
Proof.
  intros Hc Hc'. destruct (runs_head c' r) as [run [rest E]].
  rewrite Hc' in E. exists run, rest. split; [exact E |].
  change (runs p (c :: c' :: r)) with
    (match runs p (c' :: r) with
     | (b, run) :: rest =>
         if Bool.eqb (p c) b then (b, c :: run) :: rest
         else (p c, [c]) :: (b, run) :: rest
     | [] => [(p c, [c])]
     end).
  rewrite E, Hc. reflexivity.
Qed.

(** A code unit of [p] in front of anything else is a run of its own. *)
Lemma runs_single c r :
  p c = true -> head_satisfies p r = false ->
  runs p (c :: r) = (true, [c]) :: runs p r.
Proof.
  intros Hc Hr. destruct r as [| c' r]; simpl in *.
  - rewrite Hc. reflexivity.
  - destruct (runs_head c' r) as [run [rest E]]. simpl in E.
    rewrite E, Hc, Hr. reflexivity.
Qed.

End Runs.

Lemma slug_step_a_space c r :
  is_space c = true ->
  slug_step_a (c :: r)
  = if head_satisfies is_space r then slug_step_a r
    else hyphen :: slug_step_a r.
Proof.
  intro Hc. unfold slug_step_a, rewrite_runs.
  destruct (head_satisfies is_space r) eqn:Hr.
  - destruct r as [| c' r]; [discriminate |]. simpl in Hr.
    destruct (runs_extend is_space c c' r Hc Hr) as (run & rest & E1 & E2).
    rewrite E1, E2. reflexivity.
  - rewrite (runs_single is_space c r Hc Hr). reflexivity.
Qed.

Lemma replace_spaces_runs : forall s,
  replace_spaces s = slug_step_a s
  /\ hyphen :: skip_spaces s
     = if head_satisfies is_space s then slug_step_a s
       else hyphen :: slug_step_a s.
Proof.
  induction s as [| c r [IH1 IH2]]; [split; reflexivity |].
  simpl. destruct (is_space c) eqn:Hc.
  - rewrite (slug_step_a_space c r Hc), IH2. split; reflexivity.
  - unfold slug_step_a in *. rewrite (rewrite_runs_keep _ _ c r Hc), IH1.
    split; reflexivity.
Qed.

Lemma split_not_nil ch : forall s, split ch s <> [].
Proof.
  induction s as [| c r IH]; simpl; [discriminate |].
  destruct (c =? ch)%N; [discriminate |].
  destruct (split ch r); [contradiction | discriminate].
Qed.

Lemma join_split ch : forall s,
  join [hyphen] (split ch s) = map (substitute ch) s.
Proof.
  induction s as [| c r IH]; [reflexivity |].
  simpl. unfold substitute at 1.
  pose proof (split_not_nil ch r) as Hne.
  destruct (c =? ch)%N.
  - destruct (split ch r) as [| q qs]; [contradiction |].
    rewrite <- IH. reflexivity.
  - destruct (split ch r) as [| q qs]; [contradiction |].
    rewrite <- IH. destruct qs; reflexivity.
Qed.

Lemma fold_substitute (chs : list codeunit) : forall v,
  fold_left (fun v ch => join [hyphen] (split ch v)) chs v
  = map (fun c => fold_left (fun c ch => substitute ch c) chs c) v.
Proof.
  induction chs as [| ch chs IH]; intro v; simpl.
  - symmetry. apply map_id.
  - rewrite IH, join_split, map_map. reflexivity.
Qed.

Lemma substitute_reserved c :
  fold_left (fun c ch => substitute ch c) reserved c
  = if is_reserved c then hyphen else c.
Proof.
  unfold is_reserved, reserved, substitute. simpl.
  repeat match goal with
         | |- context [(c =? ?k)%N] =>
             destruct (N.eqb_spec c k); [subst; reflexivity |]
         end.
  reflexivity.
Qed.

Lemma reserved_loop v :
  fold_left (fun v ch => join [hyphen] (split ch v)) reserved v
  = slug_step_b v.
Proof.
  rewrite fold_substitute. unfold slug_step_b.
  apply map_ext. exact substitute_reserved.
Qed.

Lemma is_hyphen_eq c : is_hyphen c = true -> c = hyphen.
Proof. apply N.eqb_eq. Qed.

Lemma slug_step_c_keep c r :
  is_hyphen c = false -> slug_step_c (c :: r) = c :: slug_step_c r.
Proof. apply rewrite_runs_keep. Qed.

Lemma slug_step_c_join c r :
  is_hyphen c = true -> starts_with_hyphen r = true ->
  slug_step_c (c :: r) = slug_step_c r.
Proof.
  intros Hc Hr. destruct r as [| c' r]; [discriminate |]. simpl in Hr.
  destruct (runs_extend is_hyphen c c' r Hc Hr) as (run & rest & E1 & E2).
  unfold slug_step_c, rewrite_runs. rewrite E1, E2. simpl.
  destruct run; [| reflexivity].
  simpl. rewrite (is_hyphen_eq _ Hr). reflexivity.
Qed.

Lemma slug_step_c_single c r :
  is_hyphen c = true -> starts_with_hyphen r = false ->
  slug_step_c (c :: r) = hyphen :: slug_step_c r.
Proof.
  intros Hc Hr. unfold slug_step_c, rewrite_runs.
  rewrite (runs_single is_hyphen c r Hc Hr). simpl.
  rewrite (is_hyphen_eq _ Hc). reflexivity.
Qed.

Lemma skip_hyphens_other s :
  starts_with_hyphen s = false -> skip_hyphens s = replace_hyphens s.
Proof.
  destruct s as [| c r]; [reflexivity |]. simpl. intros ->. reflexivity.
Qed.

Lemma replace_hyphens_runs : forall s,
  replace_hyphens s = slug_step_c s
  /\ (starts_with_hyphen s = true -> hyphen :: skip_hyphens s = slug_step_c s).
Proof.
  induction s as [| c r [IH1 IH2]]; [split; [reflexivity | discriminate] |].
  simpl. destruct (is_hyphen c) eqn:Hc; simpl.
  - destruct (starts_with_hyphen r) eqn:Hr.
    + rewrite (slug_step_c_join c r Hc Hr), (IH2 eq_refl). split; reflexivity.
    + rewrite (slug_step_c_single c r Hc Hr), (skip_hyphens_other r Hr), IH1.
      rewrite (is_hyphen_eq _ Hc). split; reflexivity.
  - rewrite (slug_step_c_keep c r Hc), IH1. split; [reflexivity | discriminate].
Qed.

Lemma promptSlug_steps s : promptSlug s = slug_reference s.
Proof.
  unfold promptSlug, slug_reference.
  rewrite (proj1 (replace_spaces_runs s)), reserved_loop.
  apply replace_hyphens_runs.
Qed.

Lemma replace_spaces_clean : forall s,
  forallb (fun c => negb (is_space c) && negb (is_reserved c)) s = true ->
  replace_spaces s = s.
Proof.
  induction s as [| c r IH]; [reflexivity |]. simpl.
  rewrite !andb_true_iff, !negb_true_iff. intros [[Hs _] Hr].
  rewrite Hs, (IH Hr). reflexivity.
Qed.

Lemma slug_step_b_clean : forall s,
  forallb (fun c => negb (is_space c) && negb (is_reserved c)) s = true ->
  slug_step_b s = s.
Proof.
  induction s as [| c r IH]; [reflexivity |]. simpl.
  rewrite !andb_true_iff, !negb_true_iff. intros [[_ Hc] Hr].
  rewrite Hc, (IH Hr). reflexivity.
Qed.

Lemma replace_hyphens_clean : forall s,
  has_double_hyphen s = false -> replace_hyphens s = s.
Proof.
  induction s as [| c r IH]; [reflexivity |]. simpl.
  rewrite orb_false_iff. intros [H1 H2]. rewrite H1, (IH H2). reflexivity.
Qed.

(** C9. [promptSlug] is the three steps of the specification, one after
    the other; it leaves already-clean input as it is, and the slug of
    [Seoul trip: day 1!] is [Seoul-trip-day-1!]. *)
Theorem promptSlug_is_reference :
  (forall s, promptSlug s = slug_reference s)
  /\ (forall s, clean s = true -> promptSlug s = s)
  /\ promptSlug (js "Seoul trip: day 1!") = js "Seoul-trip-day-1!".
Proof.
  split; [exact promptSlug_steps | split; [| reflexivity]].
  intros s Hs. unfold clean in Hs.
  apply andb_true_iff in Hs. destruct Hs as [Hf Hh].
  apply negb_true_iff in Hh.
  unfold promptSlug.
  rewrite (replace_spaces_clean s Hf), reserved_loop, (slug_step_b_clean s Hf).
  apply replace_hyphens_clean. exact Hh.
Qed.

Lemma promptSlug_is_reference_witness :
  clean (js "Namsan-radius_500m") = true
  /\ promptSlug (js "Namsan-radius_500m") = js "Namsan-radius_500m".
Proof.
  split; [reflexivity |].
  apply (proj1 (proj2 promptSlug_is_reference)). reflexivity.
Defined.

(* ================================================================= *)
(** * Further properties of the code *)

(* ================================================================= *)
(** ** The slug is a safe name *)

Lemma replace_spaces_forallb (q : codeunit -> bool) :
  q hyphen = true ->
  forall s, forallb (fun c => is_space c || q c) s = true ->
            forallb q (replace_spaces s) = true
            /\ forallb q (skip_spaces s) = true.
Proof.
  intros Hq. induction s as [| c r IH]; simpl; [auto |].
  rewrite andb_true_iff. intros [Hc Hr]. destruct (IH Hr) as [IH1 IH2].
  destruct (is_space c) eqn:Es; simpl in *.
  - rewrite Hq, IH2. auto.
  - rewrite Hc, IH1. auto.
Qed.

Lemma replace_hyphens_forallb (q : codeunit -> bool) :
  q hyphen = true ->
  forall s, forallb q s = true ->
            forallb q (replace_hyphens s) = true
            /\ forallb q (skip_hyphens s) = true.
Proof.
  intros Hq. induction s as [| c r IH]; simpl; [auto |].
  rewrite andb_true_iff. intros [Hc Hr]. destruct (IH Hr) as [IH1 IH2].
  destruct (is_hyphen c); simpl;
    [destruct (starts_with_hyphen r); simpl |];
    rewrite ?Hq, ?Hc, ?IH1, ?IH2; auto.
Qed.

Lemma starts_with_hyphen_replace s :
  starts_with_hyphen (replace_hyphens s) = starts_with_hyphen s.
Proof.
  destruct s as [| c r]; [reflexivity |]. simpl.
  destruct (is_hyphen c) eqn:Hc; simpl.
  - destruct (starts_with_hyphen r); simpl; [reflexivity | exact Hc].
  - exact Hc.
Qed.

Lemma replace_hyphens_no_double : forall s,
  has_double_hyphen (replace_hyphens s) = false
  /\ has_double_hyphen (skip_hyphens s) = false
  /\ starts_with_hyphen (skip_hyphens s) = false.
Proof.
  induction s as [| c r (IH1 & IH2 & IH3)]; simpl; [auto |].
  destruct (is_hyphen c) eqn:Hc; simpl.
  - split; [| auto].
    destruct (starts_with_hyphen r) eqn:Hr; simpl.
    + rewrite IH3, IH2. reflexivity.
    + rewrite ?Hc, starts_with_hyphen_replace, Hr, IH1. reflexivity.
  - rewrite ?Hc, IH1. simpl. auto.
Qed.

Lemma slug_step_b_forallb : forall s,
  forallb (fun c => negb (is_space c)) s = true ->
  forallb (fun c => negb (is_space c) && negb (is_reserved c))
    (slug_step_b s) = true.
Proof.
  induction s as [| c r IH]; simpl; [reflexivity |].
  rewrite andb_true_iff. intros [Hc Hr]. rewrite (IH Hr), andb_true_r.
  destruct (is_reserved c) eqn:E; [reflexivity |].
  rewrite Hc, E. reflexivity.
Qed.

Lemma promptSlug_clean s : clean (promptSlug s) = true.
Proof.
  unfold promptSlug, clean. rewrite reserved_loop.
  apply andb_true_iff. split.
  - apply replace_hyphens_forallb; [reflexivity |].
    apply slug_step_b_forallb.
    apply (replace_spaces_forallb (fun c => negb (is_space c)));
      [reflexivity |].
    apply forallb_forall. intros c _. destruct (is_space c); reflexivity.
  - apply negb_true_iff. apply replace_hyphens_no_double.
Qed.

Lemma promptSlug_fixes_clean s : clean s = true -> promptSlug s = s.
Proof.
  unfold clean. rewrite andb_true_iff, negb_true_iff. intros [Hf Hh].
  unfold promptSlug.
  rewrite (replace_spaces_clean s Hf), reserved_loop, (slug_step_b_clean s Hf).
  apply replace_hyphens_clean. exact Hh.
Qed.

Lemma replace_spaces_length : forall s,
  (length (replace_spaces s) <= length s)%nat
  /\ (length (skip_spaces s) <= length s)%nat.
Proof.
  induction s as [| c r [IH1 IH2]]; simpl; [auto |].
  destruct (is_space c); simpl; lia.
Qed.

Lemma replace_hyphens_length : forall s,
  (length (replace_hyphens s) <= length s)%nat
  /\ (length (skip_hyphens s) <= length s)%nat.
Proof.
  induction s as [| c r [IH1 IH2]]; simpl; [auto |].
  destruct (is_hyphen c); simpl; [destruct (starts_with_hyphen r) |];
    simpl; lia.
Qed.

(** X1. Whatever the prompt is, its slug has no white space, none of the
    nine reserved characters and no two hyphens in a row. *)
Theorem promptSlug_is_safe (s : jsstring) :
  Forall (fun c => is_space c = false /\ is_reserved c = false) (promptSlug s)
  /\ has_double_hyphen (promptSlug s) = false.
Proof.
  pose proof (promptSlug_clean s) as H. unfold clean in H.
  apply andb_true_iff in H. destruct H as [Hf Hh]. split.
  - apply Forall_forall. intros c Hc.
    rewrite forallb_forall in Hf. specialize (Hf c Hc).
    rewrite andb_true_iff, !negb_true_iff in Hf. exact Hf.
  - apply negb_true_iff. exact Hh.
Qed.

(** X2. [promptSlug] is idempotent, and a slug is never longer than its
    prompt. *)
Theorem promptSlug_idempotent_and_short (s : jsstring) :
  promptSlug (promptSlug s) = promptSlug s
  /\ (length (promptSlug s) <= length s)%nat.
Proof.
  split.
  - apply promptSlug_fixes_clean, promptSlug_clean.
  - unfold promptSlug. rewrite reserved_loop.
    pose proof (proj1 (replace_hyphens_length
                         (slug_step_b (replace_spaces s)))) as H1.
    pose proof (proj1 (replace_spaces_length s)) as H2.
    unfold slug_step_b in *. rewrite length_map in H1. lia.
Qed.

(* ================================================================= *)
(** ** What the parser returns *)

Lemma parseExifDateTime_sound s p :
  parseExifDateTime s = Some p ->
  exists y mo d sep hh mm tail,
    s = y ++ colon :: mo ++ colon :: d ++ sep :: hh ++ colon :: mm ++ tail
    /\ digit_string 4 y /\ digit_string 2 mo /\ digit_string 2 d
    /\ (sep = 32%N \/ sep = 84%N)
    /\ digit_string 2 hh /\ digit_string 2 mm
    /\ (tail = [] \/ exists ss, tail = colon :: ss /\ digit_string 2 ss)
    /\ dateStr p = y ++ hyphen :: mo ++ hyphen :: d
    /\ hhmm p = hh ++ colon :: mm.
Proof.
  intro H. unfold parseExifDateTime in H.
  step_digits H. step_char H. step_digits H. step_char H. step_digits H.
  step_char H. step_digits H. step_char H. step_digits H.
  match type of H with
  | context [seconds_then_end ?t] =>
      destruct (seconds_then_end t) as [[] |] eqn:Hs; [| discriminate];
      apply seconds_then_end_sound in Hs
  end.
  repeat match goal with
         | Hc : is_colon _ = true |- _ => apply is_colon_eq in Hc; subst
         | Hc : is_sep _ = true |- _ => apply is_sep_eq in Hc
         end.
  inversion H; subst p; clear H. simpl.
  do 7 eexists. split; [reflexivity |]. tauto.
Qed.

Lemma parseExifDateTime_complete y mo d sep hh mm tail :
  digit_string 4 y -> digit_string 2 mo -> digit_string 2 d ->
  sep = 32%N \/ sep = 84%N ->
  digit_string 2 hh -> digit_string 2 mm ->
  tail = [] \/ (exists ss, tail = colon :: ss /\ digit_string 2 ss) ->
  parseExifDateTime
    (y ++ colon :: mo ++ colon :: d ++ sep :: hh ++ colon :: mm ++ tail)
  = Some {| dateStr := y ++ hyphen :: mo ++ hyphen :: d;
            hhmm := hh ++ colon :: mm |}.
Proof.
  intros Hy Hmo Hd Hsep Hhh Hmm Htail.
  unfold parseExifDateTime.
  rewrite (digits_complete _ _ _ Hy). simpl char; cbv beta iota.
  rewrite (digits_complete _ _ _ Hmo). simpl char; cbv beta iota.
  rewrite (digits_complete _ _ _ Hd).
  assert (Hs : is_sep sep = true) by (destruct Hsep; subst; reflexivity).
  unfold char at 1. rewrite Hs; cbv beta iota.
  rewrite (digits_complete _ _ _ Hhh). simpl char; cbv beta iota.
  rewrite (digits_complete _ _ _ Hmm).
  destruct Htail as [-> | [ss [-> Hss]]].
  - reflexivity.
  - unfold seconds_then_end. simpl char.
    rewrite <- (app_nil_r ss), (digits_complete _ _ _ Hss). reflexivity.
Qed.

Lemma parsed_format s p :
  parseExifDateTime s = Some p ->
  iso_date (dateStr p) /\ clock_time (hhmm p).
Proof.
  intro H. apply parseExifDateTime_sound in H.
  destruct H as (y & mo & d & sep & hh & mm & tail & _ & Hy & Hmo & Hd & _
                 & Hhh & Hmm & _ & -> & ->).
  split; [exists y, mo, d | exists hh, mm]; auto.
Qed.

(** X3. The parser succeeds exactly on the strings of the pattern, and then
    returns the year, month and day joined by hyphens and the hour and
    minute joined by a colon, as they stand in the input: the separator
    and the seconds leave no trace in the result. *)
Theorem parseExifDateTime_result (s : jsstring) (p : ParsedDateTime) :
  parseExifDateTime s = Some p <->
  exists y mo d sep hh mm tail,
    s = y ++ colon :: mo ++ colon :: d ++ sep :: hh ++ colon :: mm ++ tail
    /\ digit_string 4 y /\ digit_string 2 mo /\ digit_string 2 d
    /\ (sep = 32%N \/ sep = 84%N)
    /\ digit_string 2 hh /\ digit_string 2 mm
    /\ (tail = [] \/ exists ss, tail = colon :: ss /\ digit_string 2 ss)
    /\ dateStr p = y ++ hyphen :: mo ++ hyphen :: d
    /\ hhmm p = hh ++ colon :: mm.
Proof.
  split; [apply parseExifDateTime_sound |].
  intros (y & mo & d & sep & hh & mm & tail & -> & Hy & Hmo & Hd & Hsep
          & Hhh & Hmm & Htail & Hdate & Htime).
  destruct p as [ds hm]. simpl in Hdate, Htime. subst ds hm.
  apply parseExifDateTime_complete; assumption.
Qed.

(** X4. A time stamp that parses has 16 or 19 code units, and its date and
    time come out in fixed width: 10 code units of the form YYYY-MM-DD and
    5 of the form HH:MM. *)
Theorem parseExifDateTime_fixed_width (s : jsstring) (p : ParsedDateTime) :
  parseExifDateTime s = Some p ->
  (length s = 16 \/ length s = 19)%nat
  /\ iso_date (dateStr p) /\ length (dateStr p) = 10%nat
  /\ clock_time (hhmm p) /\ length (hhmm p) = 5%nat.
Proof.
  intro H. pose proof (parsed_format s p H) as [Hd Ht].
  apply parseExifDateTime_sound in H.
  destruct H as (y & mo & d & sep & hh & mm & tail & -> & [Ly _] & [Lmo _]
                 & [Ld _] & _ & [Lhh _] & [Lmm _] & Htail & E1 & E2).
  repeat split; try assumption.
  - repeat (rewrite length_app; simpl).
    destruct Htail as [-> | [ss [-> [Lss _]]]]; simpl; [left | right]; lia.
  - rewrite E1. repeat (rewrite length_app; simpl). lia.
  - rewrite E2. repeat (rewrite length_app; simpl). lia.
Qed.

Lemma parseExifDateTime_fixed_width_witness :
  length (js "2024:01:15T10:00") = 16%nat
  /\ length (js "2024-01-15") = 10%nat /\ length (js "10:00") = 5%nat.
Proof.
  destruct (parseExifDateTime_fixed_width (js "2024:01:15T10:00")
              {| dateStr := js "2024-01-15"; hhmm := js "10:00" |} eq_refl)
    as (Hs & _ & Hd & _ & Ht).
  split; [| split; [exact Hd | exact Ht]].
  destruct Hs as [Hs | Hs]; [exact Hs | discriminate Hs].
Defined.

(* ================================================================= *)
(** ** The order on dates and times is the order of time *)

Lemma lex_lt_cons_iff x y a b :
  lex_lt (x :: a) (y :: b) <-> (x < y)%N \/ (x = y /\ lex_lt a b).
Proof.
  split.
  - intro H. inversion H; subst; auto.
  - intros [H | [-> H]]; [apply lex_lt_head | apply lex_lt_tail]; assumption.
Qed.

Lemma lex_lt_app : forall a1 a2 b1 b2,
  length a1 = length a2 ->
  (lex_lt (a1 ++ b1) (a2 ++ b2) <-> lex_lt a1 a2 \/ (a1 = a2 /\ lex_lt b1 b2)).
Proof.
  induction a1 as [| x a1 IH]; intros [| y a2] b1 b2 Hlen;
    try discriminate; simpl.
  - split; [auto |]. intros [H | [_ H]]; [inversion H | exact H].
  - injection Hlen as Hlen. rewrite !lex_lt_cons_iff, (IH a2 b1 b2 Hlen).
    split.
    + intros [H | [-> [H | [-> H]]]]; auto.
    + intros [[H | [-> H]] | [E H]]; auto.
      injection E as -> ->. auto.
Qed.

(** A separator at the same place on both sides does not count. *)
Lemma lex_lt_drop_separator a1 a2 c b1 b2 :
  length a1 = length a2 ->
  (lex_lt (a1 ++ c :: b1) (a2 ++ c :: b2) <-> lex_lt (a1 ++ b1) (a2 ++ b2)).
Proof.
  intro Hlen. rewrite !lex_lt_app by assumption. rewrite lex_lt_cons_iff.
  split; intros [H | [E H]]; auto.
  destruct H as [H | [_ H]]; [lia | auto].
Qed.

Lemma digits_value_from (s : jsstring) : forall acc,
  fold_left (fun acc c => acc * 10 + (c - 48))%N s acc
  = (acc * 10 ^ N.of_nat (length s) + digits_value s)%N.
Proof.
  unfold digits_value.
  induction s as [| c r IH]; intro acc.
  - simpl. lia.
  - cbn [fold_left length]. rewrite IH, (IH (0 * 10 + (c - 48))%N).
    rewrite Nat2N.inj_succ, N.pow_succ_r'. lia.
Qed.

Lemma digits_value_cons c r :
  digits_value (c :: r)
  = ((c - 48) * 10 ^ N.of_nat (length r) + digits_value r)%N.
Proof.
  unfold digits_value at 1. cbn [fold_left]. rewrite digits_value_from. lia.
Qed.

Lemma is_digit_bounds c : is_digit c = true -> (48 <= c <= 57)%N.
Proof.
  unfold is_digit. rewrite andb_true_iff, !N.leb_le. tauto.
Qed.

Lemma digits_value_bound : forall s,
  Forall (fun c => is_digit c = true) s ->
  (digits_value s < 10 ^ N.of_nat (length s))%N.
Proof.
  induction s as [| c r IH]; intro H.
  - vm_compute. reflexivity.
  - inversion H as [| ? ? Hc Hr]; subst. specialize (IH Hr).
    apply is_digit_bounds in Hc.
    rewrite digits_value_cons. cbn [length].
    rewrite Nat2N.inj_succ, N.pow_succ_r'. nia.
Qed.

(** For strings of digits of one length, the order on strings is the
    order on the numbers they write. *)
Lemma digits_order : forall a b,
  length a = length b ->
  Forall (fun c => is_digit c = true) a ->
  Forall (fun c => is_digit c = true) b ->
  (lex_lt a b <-> (digits_value a < digits_value b)%N).
Proof.
  induction a as [| x a IH]; intros [| y b] Hlen Ha Hb; try discriminate.
  - split; [intro H; inversion H | vm_compute; discriminate].
  - injection Hlen as Hlen.
    inversion Ha as [| ? ? Hx Ha']; inversion Hb as [| ? ? Hy Hb']; subst.
    rewrite lex_lt_cons_iff, (IH b Hlen Ha' Hb'), !digits_value_cons, Hlen.
    apply is_digit_bounds in Hx, Hy.
    pose proof (digits_value_bound a Ha') as Ba.
    pose proof (digits_value_bound b Hb') as Bb.
    rewrite Hlen in Ba.
    set (pw := (10 ^ N.of_nat (length b))%N) in *.
    split.
    + intros [H | [-> H]]; nia.
    + intro H. destruct (N.lt_trichotomy x y) as [L | [E | G]];
        [left; exact L | right; split; [exact E | subst; nia] | exfalso; nia].
Qed.

Lemma filter_digits x :
  Forall (fun c => is_digit c = true) x -> filter is_digit x = x.
Proof.
  induction x as [| c r IH]; intro H; [reflexivity |].
  inversion H; subst. simpl. rewrite H2, IH; auto.
Qed.

Lemma iso_date_order a b :
  iso_date a -> iso_date b ->
  (lex_lt a b <-> (date_key a < date_key b)%N).
Proof.
  intros (y1 & m1 & d1 & -> & [Ly1 Fy1] & [Lm1 Fm1] & [Ld1 Fd1])
         (y2 & m2 & d2 & -> & [Ly2 Fy2] & [Lm2 Fm2] & [Ld2 Fd2]).
  unfold date_key.
  rewrite !filter_app. simpl filter. rewrite !filter_app. simpl filter.
  rewrite !filter_digits by assumption.
  rewrite lex_lt_drop_separator by congruence.
  rewrite !app_assoc.
  rewrite lex_lt_drop_separator by (rewrite !length_app; congruence).
  apply digits_order.
  - rewrite !length_app. congruence.
  - repeat (apply Forall_app; split); assumption.
  - repeat (apply Forall_app; split); assumption.
Qed.

Lemma clock_time_order a b :
  clock_time a -> clock_time b ->
  (lex_lt a b <-> (date_key a < date_key b)%N).
Proof.
  intros (h1 & m1 & -> & [Lh1 Fh1] & [Lm1 Fm1])
         (h2 & m2 & -> & [Lh2 Fh2] & [Lm2 Fm2]).
  unfold date_key.
  rewrite !filter_app. simpl filter.
  rewrite !filter_digits by assumption.
  rewrite lex_lt_drop_separator by congruence.
  apply digits_order.
  - rewrite !length_app. congruence.
  - apply Forall_app; split; assumption.
  - apply Forall_app; split; assumption.
Qed.

(** X5. On dates of the form YYYY-MM-DD the comparison [<] of the code is
    the order of the numbers YYYYMMDD, and on times HH:MM that of the
    numbers HHMM: the strings the parser returns are compared
    chronologically with one another and with bounds of the same form. *)
Theorem string_order_is_chronological :
  (forall a b, iso_date a -> iso_date b ->
               (str_ltb a b = true <-> (date_key a < date_key b)%N))
  /\ (forall a b, clock_time a -> clock_time b ->
                  (str_ltb a b = true <-> (date_key a < date_key b)%N))
  /\ (forall s p, parseExifDateTime s = Some p ->
                  iso_date (dateStr p) /\ clock_time (hhmm p)).
Proof.
  split; [| split].
  - intros a b Ha Hb. rewrite str_ltb_lt. apply iso_date_order; assumption.
  - intros a b Ha Hb. rewrite str_ltb_lt. apply clock_time_order; assumption.
  - exact parsed_format.
Qed.

Lemma iso_date_example : iso_date (js "2023-12-31") /\ iso_date (js "2024-01-01").
Proof.
  split.
  - exists (js "2023"), (js "12"), (js "31").
    repeat split; repeat constructor.
  - exists (js "2024"), (js "01"), (js "01").
    repeat split; repeat constructor.
Qed.

Lemma string_order_is_chronological_witness :
  str_ltb (js "2023-12-31") (js "2024-01-01") = true
  <-> (date_key (js "2023-12-31") < date_key (js "2024-01-01"))%N.
Proof.
  apply (proj1 string_order_is_chronological);
    [exact (proj1 iso_date_example) | exact (proj2 iso_date_example)].
Defined.

(* ================================================================= *)
(** ** The date range and the ISO range *)

Lemma inDateRange_guards (d : jsstring) (from to : option jsstring) :
  inDateRange d from to
  = negb (guard from (fun f => str_ltb d f))
    && negb (guard to (fun t => str_gtb d t)).
Proof. exact (inTimeWindow_guards d from to). Qed.

Lemma or_empty_bound (P : jsstring -> Prop) (o : option jsstring) :
  (forall f, Some (or_empty o) = Some f -> f <> [] -> P f)
  <-> (forall f, o = Some f -> f <> [] -> P f).
Proof.
  destruct o as [s |]; simpl; [reflexivity |]. split.
  - intros _ f E. discriminate.
  - intros _ f E Hne. inversion E; subst. exfalso. apply Hne. reflexivity.
Qed.

Lemma check_date_range_iff input p :
  check_date_range input p = None <->
  (forall f, match date_range input with Some dr => dr_from dr | None => None end
             = Some f -> f <> [] -> lex_le f (dateStr p))
  /\ (forall t, match date_range input with Some dr => dr_to dr | None => None end
                = Some t -> t <> [] -> lex_le (dateStr p) t).
Proof.
  unfold check_date_range.
  rewrite <- (or_empty_bound (fun f => lex_le f (dateStr p))).
  rewrite <- (or_empty_bound (fun t => lex_le (dateStr p) t)).
  rewrite <- guard_from_le, <- guard_to_le.
  rewrite inDateRange_guards.
  destruct (guard _ (fun f => str_ltb (dateStr p) f));
    destruct (guard _ (fun t => str_gtb (dateStr p) t)); simpl;
    (split; [intro H; try discriminate H; auto
            | intros [H1 H2]; try discriminate; reflexivity]).
Qed.

(** X6. The date range lets a record through exactly when its date is not
    below a [from] that is given and not empty, and not above a [to] that
    is given and not empty, in the order on strings: a date equal to both
    bounds passes, and a range whose [to] is below its [from] lets no
    record through. *)
Theorem date_range_is_inclusive (input : FilterAndCopyInput)
    (dr : DateRange) (p : ParsedDateTime) :
  date_range input = Some dr ->
  (check_date_range input p = None <->
   (forall f, dr_from dr = Some f -> f <> [] -> lex_le f (dateStr p))
   /\ (forall t, dr_to dr = Some t -> t <> [] -> lex_le (dateStr p) t))
  /\ (dr_from dr = Some (dateStr p) -> dr_to dr = Some (dateStr p) ->
      check_date_range input p = None)
  /\ (forall f t, dr_from dr = Some f -> dr_to dr = Some t -> t <> [] ->
                  lex_lt t f -> check_date_range input p = Some SkipDateRange).
Proof.
  intro Hdr. pose proof (check_date_range_iff input p) as Hiff.
  rewrite Hdr in Hiff. split; [exact Hiff | split].
  - intros Hf Ht. apply Hiff. split; intros s E _.
    + rewrite Hf in E. inversion E. left. reflexivity.
    + rewrite Ht in E. inversion E. left. reflexivity.
  - intros f t Hf Ht Hne Hlt.
    destruct (check_date_range input p) as [r |] eqn:E.
    + unfold check_date_range in E.
      destruct (inDateRange _ _ _); [discriminate | congruence].
    + exfalso. destruct (proj1 Hiff eq_refl) as [H1 H2].
      assert (Hf_ne : f <> []) by (intros ->; inversion Hlt).
      apply (lex_lt_irrefl f).
      eapply lex_le_lt_trans; [exact (H1 _ Hf Hf_ne) |].
      eapply lex_le_lt_trans; [exact (H2 _ Ht Hne) | exact Hlt].
Qed.

Lemma date_range_is_inclusive_witness :
  check_date_range january_2024
    {| dateStr := js "2024-01-31"; hhmm := js "10:00" |} = None.
Proof.
  apply (proj1 (date_range_is_inclusive january_2024
                  {| dr_from := Some (js "2024-01-01");
                     dr_to := Some (js "2024-01-31") |}
                  {| dateStr := js "2024-01-31"; hhmm := js "10:00" |}
                  eq_refl)).
  split; intros s E _; inversion E; subst.
  - right. apply str_ltb_lt. reflexivity.
  - left. reflexivity.
Defined.

(** X7. The ISO range never skips a record that carries no ISO value; a
    record with an ISO value passes exactly when the value is within the
    bounds that are given, both inclusive, so that a range with
    [max < min] skips every record that has an ISO value. *)
Theorem iso_dimension (input : FilterAndCopyInput) (range : IsoRange)
    (it : ExifData) :
  iso input = Some range ->
  (ISO it = None -> check_iso input it = None)
  /\ (forall v, ISO it = Some v ->
        (check_iso input it = None <->
         (forall m, iso_min range = Some m -> (m <= v)%Q)
         /\ (forall m, iso_max range = Some m -> (v <= m)%Q)))
  /\ (forall v lo hi, ISO it = Some v ->
        iso_min range = Some lo -> iso_max range = Some hi -> (hi < lo)%Q ->
        check_iso input it <> None).
Proof.
  intro Hin.
  assert (Hiff : forall v, ISO it = Some v ->
            (check_iso input it = None <->
             (forall m, iso_min range = Some m -> (m <= v)%Q)
             /\ (forall m, iso_max range = Some m -> (v <= m)%Q))).
  { intros v Hv. unfold check_iso. rewrite Hin, Hv.
    rewrite <- lower_bound_check, <- upper_bound_check.
    destruct (negb match iso_min range with
                   | Some m => Qltb v m | None => false end);
      destruct (negb match iso_max range with
                     | Some m => Qgtb v m | None => false end);
      (split; intro H;
       [try discriminate H; auto
       | destruct H; try discriminate; reflexivity]). }
  split; [| split; [exact Hiff |]].
  - intro Hv. unfold check_iso. rewrite Hin, Hv. reflexivity.
  - intros v lo hi Hv Hlo Hhi Hlt Hnone.
    apply (Hiff v Hv) in Hnone. destruct Hnone as [H1 H2].
    specialize (H1 _ Hlo). specialize (H2 _ Hhi).
    apply (Qlt_irrefl hi). eapply Qlt_le_trans; [exact Hlt |].
    eapply Qle_trans; eassumption.
Qed.

Lemma iso_dimension_witness :
  check_iso iso_100_400 (Sim.photo "/photos/a.jpg" "2024:01:15 10:00:00")
  = None.
Proof.
  apply (proj1 (iso_dimension iso_100_400
                  {| iso_min := Some 100%Q; iso_max := Some 400%Q |}
                  (Sim.photo "/photos/a.jpg" "2024:01:15 10:00:00") eq_refl)).
  reflexivity.
Defined.

(* ================================================================= *)
(** ** The artist and the camera *)

Lemma guard_not_blank v :
  guard v (fun v => negb (str_eqb (trim v) [])) = negb (blank v).
Proof. unfold blank. rewrite negb_involutive. reflexivity. Qed.

Lemma not_blank_some v :
  blank v = false -> exists c r, v = Some (c :: r).
Proof.
  unfold blank. rewrite negb_false_iff.
  destruct v as [[| c r] |]; simpl; try discriminate. eauto.
Qed.

Lemma firstNonEmpty_cons v rest :
  firstNonEmpty (v :: rest)
  = if blank v then firstNonEmpty rest else or_empty v.
Proof.
  cbn [firstNonEmpty]. rewrite guard_not_blank.
  destruct (blank v); reflexivity.
Qed.

Lemma firstNonEmpty_all_blank vals :
  Forall (fun v => blank v = true) vals -> firstNonEmpty vals = [].
Proof.
  induction 1 as [| v rest Hv _ IH]; [reflexivity |].
  rewrite firstNonEmpty_cons, Hv. exact IH.
Qed.

Lemma firstNonEmpty_first pre v post :
  Forall (fun v => blank v = true) pre -> blank (Some v) = false ->
  firstNonEmpty (pre ++ Some v :: post) = v.
Proof.
  intros Hpre Hv. induction Hpre as [| u rest Hu _ IH]; cbn [app].
  - rewrite firstNonEmpty_cons, Hv. reflexivity.
  - rewrite firstNonEmpty_cons, Hu. exact IH.
Qed.

(** X8. [firstNonEmpty] returns, as it stands, the first of its values
    that is given and is not white space only; it returns the empty string
    exactly when there is no such value. *)
Theorem firstNonEmpty_first_non_blank (vals : list (option jsstring)) :
  (firstNonEmpty vals = [] <-> Forall (fun v => blank v = true) vals)
  /\ (forall pre v post,
         vals = pre ++ Some v :: post ->
         Forall (fun v => blank v = true) pre ->
         blank (Some v) = false ->
         firstNonEmpty vals = v).
Proof.
  split.
  - split; [| apply firstNonEmpty_all_blank].
    induction vals as [| v rest IH]; intro H; [constructor |].
    rewrite firstNonEmpty_cons in H. destruct (blank v) eqn:Hv.
    + constructor; auto.
    + apply not_blank_some in Hv. destruct Hv as (c & r & ->).
      discriminate H.
  - intros pre v post -> Hpre Hv. apply firstNonEmpty_first; assumption.
Qed.

Lemma firstNonEmpty_first_non_blank_witness :
  firstNonEmpty [None; Some (js "  "); Some (js "Creator"); Some (js "By")]
  = js "Creator".
Proof.
  apply (proj2 (firstNonEmpty_first_non_blank
                  [None; Some (js "  "); Some (js "Creator"); Some (js "By")])
           [None; Some (js "  ")] (js "Creator") [Some (js "By")]).
  - reflexivity.
  - repeat constructor.
  - reflexivity.
Defined.

Section People.
Context {P : Platform}.

Lemma check_artist_on input it a :
  blank (artist input) = false ->
  firstNonEmpty [Artist it; Creator it; By_line it] = a ->
  (check_artist input it = None <->
   norm (Some a) <> []
   /\ includes (norm (Some a)) (norm (artist input)) = true).
Proof.
  intros Hf Ha. unfold check_artist.
  rewrite guard_not_blank, Hf, Ha. cbn [negb]. cbv zeta.
  set (x := norm (Some a)). set (n := norm (artist input)).
  assert (Hx : str_eqb x [] = true <-> x = []).
  { destruct x; simpl; split; auto; discriminate. }
  destruct (str_eqb x []) eqn:E1; destruct (includes x n) eqn:E2;
    cbn [negb orb]; split; intro H; try discriminate H; auto.
  - destruct H as [H _]. exfalso. apply H, Hx. reflexivity.
  - destruct H as [H _]. exfalso. apply H, Hx. reflexivity.
  - split; [| reflexivity]. intro E. apply Hx in E. discriminate E.
  - destruct H as [_ H]. discriminate H.
Qed.

(** X9. An artist filter that is absent or white space only skips nothing.
    Otherwise the record is judged on the first of Artist, Creator and
    By-line that is not blank, whatever the later ones hold: it passes
    exactly when that value, trimmed and in lower case, is not empty and
    contains the needle trimmed and in lower case.  A record whose three
    fields are blank is skipped, lower case of the empty string being
    empty. *)
Theorem artist_dimension (input : FilterAndCopyInput) (it : ExifData) :
  (blank (artist input) = true -> check_artist input it = None)
  /\ (blank (artist input) = false ->
      forall pre v post,
        [Artist it; Creator it; By_line it] = pre ++ Some v :: post ->
        Forall (fun u => blank u = true) pre ->
        blank (Some v) = false ->
        (check_artist input it = None <->
         norm (Some v) <> []
         /\ includes (norm (Some v)) (norm (artist input)) = true))
  /\ (blank (artist input) = false ->
      toLowerCase [] = [] ->
      blank (Artist it) = true -> blank (Creator it) = true ->
      blank (By_line it) = true ->
      check_artist input it = Some SkipArtist).
Proof.
  split; [| split].
  - intro Hb. unfold check_artist. rewrite guard_not_blank, Hb. reflexivity.
  - intros Hf pre v post E Hpre Hv.
    apply check_artist_on; [exact Hf |].
    rewrite E. apply firstNonEmpty_first; assumption.
  - intros Hf Hlow Ha Hc Hb.
    destruct (check_artist input it) as [r |] eqn:E.
    + unfold check_artist in E. destruct (guard _ _); [| discriminate].
      destruct (negb _); [discriminate | symmetry; exact E].
    + exfalso.
      apply (check_artist_on input it []) in E; [| exact Hf |].
      * destruct E as [E _]. apply E. unfold norm. simpl. exact Hlow.
      * apply firstNonEmpty_all_blank. repeat constructor; assumption.
Qed.

(** X10. Make and model are matched one after the other, each only when
    the filter gives it as a non-empty string: the record passes exactly
    when its make, trimmed and in lower case, contains that of the filter,
    and likewise its model.  A record without the make is skipped for
    the make by a filter make that is not empty once trimmed and put in
    lower case; a record without the model is skipped for the model by
    such a filter model, when the filter gives no make or the record's
    make passes. *)
Theorem camera_dimension (input : FilterAndCopyInput) (cam : CameraModel)
    (it : ExifData) :
  camera input = Some cam ->
  (check_camera input it = None <->
   (truthy (make cam) = true ->
    includes (norm (Make it)) (norm (make cam)) = true)
   /\ (truthy (model cam) = true ->
       includes (norm (Model it)) (norm (model cam)) = true))
  /\ (truthy (make cam) = true -> toLowerCase [] = [] ->
      norm (make cam) <> [] -> Make it = None ->
      check_camera input it = Some SkipCameraMake)
  /\ ((truthy (make cam) = true ->
       includes (norm (Make it)) (norm (make cam)) = true) ->
      truthy (model cam) = true ->
      toLowerCase [] = [] -> norm (model cam) <> [] -> Model it = None ->
      check_camera input it = Some SkipCameraModel).
Proof.
  intro Hc. unfold check_camera. rewrite Hc. split; [| split].
  - destruct (truthy (make cam)), (truthy (model cam)); simpl;
      destruct (includes (norm (Make it)) (norm (make cam)));
      destruct (includes (norm (Model it)) (norm (model cam))); simpl;
      (split; [intro H; try discriminate H; auto
              | intros [H1 H2]; try reflexivity;
                try (discriminate (H1 eq_refl));
                try (discriminate (H2 eq_refl))]).
  - intros Ht Hlow Hne Hm. rewrite Ht, Hm. unfold norm at 1. simpl or_empty.
    change (trim []) with (@nil codeunit). rewrite Hlow.
    destruct (norm (make cam)) as [| c r]; [contradiction | reflexivity].
  - intros Hmake Ht' Hlow Hne Hm.
    assert (Hpass : negb (truthy (make cam)
                          && negb (includes (norm (Make it)) (norm (make cam))))
                    = true).
    { destruct (truthy (make cam)); [| reflexivity].
      rewrite (Hmake eq_refl). reflexivity. }
    rewrite Hpass, Ht', Hm. simpl.
    unfold norm at 1. simpl or_empty.
    change (trim []) with (@nil codeunit). rewrite Hlow.
    destruct (norm (model cam)) as [| c r]; [contradiction | reflexivity].
Qed.

End People.

Lemma artist_dimension_witness :
  check_artist (P := Sim.platform) by_ansel
    (Sim.photo "/photos/a.jpg" "2024:01:15 10:00:00") = Some SkipArtist.
Proof.
  apply (proj2 (proj2 (artist_dimension (P := Sim.platform) by_ansel
                         (Sim.photo "/photos/a.jpg" "2024:01:15 10:00:00"))));
    reflexivity.
Defined.

Lemma camera_dimension_witness :
  check_camera (P := Sim.platform) by_ansel
    (Sim.photo "/photos/a.jpg" "2024:01:15 10:00:00") = Some SkipCameraMake.
Proof.
  apply (proj1 (proj2 (camera_dimension (P := Sim.platform) by_ansel
                         {| make := Some (js "FUJI"); model := None |}
                         (Sim.photo "/photos/a.jpg" "2024:01:15 10:00:00")
                         eq_refl)));
    try reflexivity.
  discriminate.
Defined.

(* ================================================================= *)
(** ** Location and altitude at their edges *)

Section Edges.
Context {P : Platform}.

(** X11. Under a bounding box or a centre with a radius, a record that
    lacks the latitude or the longitude, one being enough, is skipped
    for missing GPS. *)
Theorem location_needs_both_coordinates (input : FilterAndCopyInput)
    (l : Location) (it : ExifData) :
  location input = Some l ->
  hasBbox l || hasCenterRadius l = true ->
  GPSLatitude it = None \/ GPSLongitude it = None ->
  check_location input it = Some SkipGpsMissing.
Proof.
  intros Hl Hg H. unfold check_location. rewrite Hl, Hg.
  destruct H as [H | H]; rewrite H; [reflexivity |].
  destruct (GPSLatitude it); reflexivity.
Qed.

(** X12. A bounding box that is the constraint in force and has
    [maxLon < minLon] or [maxLat < minLat] lets no record through: a box
    across the 180th meridian cannot be given this way. *)
Theorem inverted_bbox_excludes_all (input : FilterAndCopyInput)
    (l : Location) (minLon minLat maxLon maxLat : Q) (it : ExifData) :
  location input = Some l ->
  bbox l = Some (minLon, minLat, maxLon, maxLat) ->
  hasCenterRadius l = false ->
  (maxLon < minLon)%Q \/ (maxLat < minLat)%Q ->
  check_location input it <> None.
Proof.
  intros Hl Hb Hcr Hinv. unfold check_location, hasBbox.
  rewrite Hl, Hb, Hcr. simpl.
  destruct (GPSLatitude it) as [glat |]; [| discriminate].
  destruct (GPSLongitude it) as [glon |]; [| discriminate].
  destruct (Qgeb glon minLon && Qleb glon maxLon
            && Qgeb glat minLat && Qleb glat maxLat) eqn:E; [| discriminate].
  exfalso. rewrite !andb_true_iff, !Qgeb_ge, !Qleb_le in E.
  destruct E as [[[H1 H2] H3] H4].
  destruct Hinv as [Hinv | Hinv].
  - apply (Qlt_irrefl maxLon). eapply Qlt_le_trans; [exact Hinv |].
    eapply Qle_trans; eassumption.
  - apply (Qlt_irrefl maxLat). eapply Qlt_le_trans; [exact Hinv |].
    eapply Qle_trans; eassumption.
Qed.

(** X13. With a centre and a radius in force, a record that passes passes
    for every larger radius around the same centre, whatever the boxes
    are. *)
Theorem larger_radius_keeps_matches (input input' : FilterAndCopyInput)
    (l l' : Location) (c : Center) (r r' : Q) (it : ExifData) :
  location input = Some l -> location input' = Some l' ->
  center l = Some c -> center l' = Some c ->
  radius_m l = Some r -> radius_m l' = Some r' ->
  (0 < r)%Q -> (r <= r')%Q ->
  check_location input it = None ->
  check_location input' it = None.
Proof.
  intros Hl Hl' Hc Hc' Hr Hr' Hpos Hle.
  assert (Hpos' : (0 < r')%Q) by (eapply Qlt_le_trans; eassumption).
  rewrite (check_location_radius input l c r it Hl Hc Hr Hpos).
  rewrite (check_location_radius input' l' c r' it Hl' Hc' Hr' Hpos').
  destruct (GPSLatitude it) as [glat |]; [| discriminate].
  destruct (GPSLongitude it) as [glon |]; [| discriminate].
  destruct (number_gt (distance_from c glat glon) r) eqn:E; [discriminate |].
  intros _. rewrite (number_gt_larger _ r r' Hle E). reflexivity.
Qed.

(** X14. With a centre and a positive radius in the filter, whatever the
    bounding box is, a record passes the location block exactly when it
    has both coordinates and [dist > radius] is false of the distance the
    code computes.  So it passes when that distance is NaN, and the
    verdict is the same for any other box or none. *)
Theorem radius_check_on_computed_distance (input : FilterAndCopyInput)
    (l : Location) (c : Center) (r : Q) (it : ExifData) :
  location input = Some l ->
  center l = Some c -> radius_m l = Some r -> (0 < r)%Q ->
  (check_location input it = None <->
   exists glat glon,
     GPSLatitude it = Some glat /\ GPSLongitude it = Some glon
     /\ number_gt (distance_from c glat glon) r = false)
  /\ (forall glat glon,
         GPSLatitude it = Some glat -> GPSLongitude it = Some glon ->
         PrimFloat.is_nan (distance_from c glat glon) = true ->
         check_location input it = None)
  /\ (forall b',
         check_location (set_location input (Some (set_bbox l b'))) it
         = check_location input it).
Proof.
  intros Hl Hc Hr Hpos.
  rewrite (check_location_radius input l c r it Hl Hc Hr Hpos).
  split; [| split].
  - destruct (GPSLatitude it) as [glat |];
      [| split; [discriminate | intros (? & ? & ? & _); discriminate]].
    destruct (GPSLongitude it) as [glon |];
      [| split; [discriminate | intros (? & ? & _ & ? & _); discriminate]].
    destruct (number_gt (distance_from c glat glon) r) eqn:E.
    + split; [discriminate |].
      intros (glat' & glon' & E1 & E2 & H). inversion E1; inversion E2; subst.
      congruence.
    + split; [intros _ | reflexivity]. exists glat, glon. auto.
  - intros glat glon -> -> Hnan. rewrite (number_gt_nan _ r Hnan). reflexivity.
  - intro b'.
    rewrite (check_location_radius (set_location input (Some (set_bbox l b')))
               (set_bbox l b') c r it eq_refl Hc Hr Hpos).
    reflexivity.
Qed.

End Edges.

Lemma location_needs_both_coordinates_witness :
  check_location (P := Sim.platform)
    (set_location (Sim.no_filter "x") (Some seoul_bbox))
    only_latitude = Some SkipGpsMissing.
Proof.
  apply (location_needs_both_coordinates (P := Sim.platform)
           (set_location (Sim.no_filter "x") (Some seoul_bbox)) seoul_bbox
           only_latitude eq_refl eq_refl).
  right. reflexivity.
Defined.

Lemma inverted_bbox_excludes_all_witness :
  check_location (P := Sim.platform)
    (set_location (Sim.no_filter "x") (Some across_the_date_line))
    (Sim.at_point some_photo 0 175) <> None.
Proof.
  apply (inverted_bbox_excludes_all (P := Sim.platform)
           (set_location (Sim.no_filter "x") (Some across_the_date_line))
           across_the_date_line 170 (-20) (-170) 20
           (Sim.at_point some_photo 0 175) eq_refl eq_refl eq_refl).
  left. reflexivity.
Defined.

Lemma larger_radius_keeps_matches_witness :
  check_location (P := Sim.platform)
    (set_location (Sim.no_filter "x") (Some (set_radius namsan_both (Some 900%Q))))
    (Sim.at_point some_photo 37.5512 126.9882) = None.
Proof.
  apply (larger_radius_keeps_matches (P := Sim.platform)
           (set_location (Sim.no_filter "x") (Some namsan_both))
           (set_location (Sim.no_filter "x")
              (Some (set_radius namsan_both (Some 900%Q))))
           namsan_both (set_radius namsan_both (Some 900%Q))
           {| lat := 37.5512; lon := 126.9882 |} 500 900
           (Sim.at_point some_photo 37.5512 126.9882)
           eq_refl eq_refl eq_refl eq_refl eq_refl eq_refl).
  - reflexivity.
  - discriminate.
  - vm_compute. reflexivity.
Defined.

Lemma radius_check_on_computed_distance_witness :
  check_location (P := Sim.platform)
    (set_location (Sim.no_filter "x") (Some namsan_both))
    (Sim.at_point some_photo 37.5512 126.9882) = None.
Proof.
  apply (proj1 (radius_check_on_computed_distance (P := Sim.platform)
                  (set_location (Sim.no_filter "x") (Some namsan_both))
                  namsan_both {| lat := 37.5512; lon := 126.9882 |} 500
                  (Sim.at_point some_photo 37.5512 126.9882)
                  eq_refl eq_refl eq_refl eq_refl)).
  exists 37.5512%Q, 126.9882%Q.
  split; [reflexivity | split; [reflexivity | vm_compute; reflexivity]].
Defined.

(** X15. An altitude range without any bound skips nothing, not even a
    record without altitude; a range with [max < min] lets no record
    through. *)
Theorem altitude_range_edges (input : FilterAndCopyInput) (range : AltRange)
    (it : ExifData) :
  altitude input = Some range ->
  (alt_min range = None -> alt_max range = None ->
   check_altitude input it = None)
  /\ (forall lo hi, alt_min range = Some lo -> alt_max range = Some hi ->
                    (hi < lo)%Q -> check_altitude input it <> None).
Proof.
  intro Hin. split.
  - intros Hlo Hhi. unfold check_altitude. rewrite Hin, Hlo, Hhi. reflexivity.
  - intros lo hi Hlo Hhi Hlt. unfold check_altitude.
    rewrite Hin, Hlo, Hhi. simpl.
    destruct (GPSAltitude it) as [galt |]; [| discriminate].
    set (alt := effective_altitude galt (GPSAltitudeRef it)).
    destruct (Qltb alt lo) eqn:E1; simpl; [discriminate |].
    destruct (Qgtb alt hi) eqn:E2; simpl; [discriminate |].
    exfalso. apply Qltb_ge in E1. apply Qgtb_le in E2.
    apply (Qlt_irrefl hi). eapply Qlt_le_trans; [exact Hlt |].
    eapply Qle_trans; eassumption.
Qed.

Lemma altitude_range_edges_witness :
  check_altitude
    (set_altitude (Sim.no_filter "x") {| alt_min := None; alt_max := None |})
    some_photo = None.
Proof.
  apply (proj1 (altitude_range_edges
                  (set_altitude (Sim.no_filter "x")
                     {| alt_min := None; alt_max := None |})
                  {| alt_min := None; alt_max := None |} some_photo eq_refl));
    reflexivity.
Defined.

(* ================================================================= *)
(** ** The run: errors, order and effects *)

Lemma str_eqb_eq : forall a b, str_eqb a b = true <-> a = b.
Proof.
  induction a as [| x a IH]; intros [| y b]; simpl;
    try (split; [discriminate | intro H; discriminate H]).
  - split; reflexivity.
  - rewrite andb_true_iff, N.eqb_eq, IH. split.
    + intros [-> ->]. reflexivity.
    + intro H. injection H as -> ->. auto.
Qed.

Lemma str_eqb_neq a b : a <> b -> str_eqb a b = false.
Proof.
  intro H. destruct (str_eqb a b) eqn:E; [| reflexivity].
  apply str_eqb_eq in E. contradiction.
Qed.

Section Run.
Context {P : Platform}.

Lemma truthy_blank_base_dir (o : option jsstring) :
  o = None \/ (exists b, o = Some b /\ trim b = []) ->
  negb (truthy o) || str_eqb (trim (or_empty o)) [] = true.
Proof.
  intros [-> | [b [-> Hb]]]; [reflexivity |].
  simpl or_empty. rewrite Hb. apply orb_true_r.
Qed.

(** X16. Without a base directory, or with one that is empty or white
    space only, [filterAndCopy] throws [base_dir required] before it
    touches anything. *)
Theorem filterAndCopy_requires_base_dir (outRoot : jsstring)
    (input : FilterAndCopyInput) (w : world) :
  base_dir input = None \/ (exists b, base_dir input = Some b /\ trim b = []) ->
  filterAndCopy outRoot input w = Throw (js "base_dir required").
Proof.
  intro H. unfold filterAndCopy.
  rewrite (truthy_blank_base_dir _ H). reflexivity.
Qed.

Lemma loop_app input outDir pre post : forall st w,
  loop input outDir (pre ++ post) st w
  = match loop input outDir pre st w with
    | Ok (st1, w1) => loop input outDir post st1 w1
    | Throw e => Throw e
    end.
Proof.
  induction pre as [| it pre IH]; intros st w; simpl; [reflexivity |].
  destruct (loop_body input outDir it st w) as [[st1 w1] | e];
    [apply IH | reflexivity].
Qed.

Lemma loop_body_cases input outDir it st w :
  (eligible input it = true
   /\ stat (or_empty (SourceFile it)) w = true
   /\ loop_body input outDir it st w
      = match copyOne (or_empty (SourceFile it)) (destination outDir it) w with
        | Ok w' => Ok (push_matched (destination outDir it) (count_scanned st), w')
        | Throw e => Throw e
        end)
  \/ ((eligible input it = false
       \/ stat (or_empty (SourceFile it)) w = false)
      /\ exists st', loop_body input outDir it st w = Ok (st', w)
                     /\ st_matched st' = st_matched st
                     /\ st_files st' = st_files st).
Proof.
  unfold loop_body, eligible, destination.
  destruct (truthy (DateTimeOriginal it)); simpl;
    [| right; split; [auto | eexists; split; [reflexivity | auto]]].
  destruct (parseExifDateTime (or_empty (DateTimeOriginal it))) as [parsed |];
    [| right; split; [auto | eexists; split; [reflexivity | auto]]].
  destruct (matchRecord input it parsed); simpl;
    [right; split; [auto | eexists; split; [reflexivity | auto]] |].
  destruct (truthy (SourceFile it)); simpl;
    [| right; split; [auto | eexists; split; [reflexivity | auto]]].
  destruct (stat (or_empty (SourceFile it)) w); simpl;
    [| right; split; [auto | eexists; split; [reflexivity | auto]]].
  left. auto.
Qed.

(** X17. One turn of the loop throws only when the copy throws, and then
    throws what the copy threw: the record was eligible and its source
    existed.  A source that does not exist never stops the run. *)
Theorem loop_body_throws_only_from_copy (input : FilterAndCopyInput)
    (outDir : jsstring) (it : ExifData) (st : LoopState) (w : world)
    (e : jsstring) :
  loop_body input outDir it st w = Throw e <->
  eligible input it = true
  /\ stat (or_empty (SourceFile it)) w = true
  /\ copyOne (or_empty (SourceFile it)) (destination outDir it) w = Throw e.
Proof.
  destruct (loop_body_cases input outDir it st w)
    as [(He & Hs & Hb) | [Hn (st' & Hb & _)]]; rewrite Hb.
  - destruct (copyOne _ _ w) as [w' | e'].
    + split; [discriminate | intros (_ & _ & H); discriminate].
    + split; [intro H; inversion H; auto
             | intros (_ & _ & H); inversion H; reflexivity].
  - split; [discriminate |]. intros (He & Hs & _).
    destruct Hn as [Hn | Hn]; congruence.
Qed.

Lemma base_dir_given (o : option jsstring) (b : jsstring) :
  o = Some b -> trim b <> [] ->
  negb (truthy o) || str_eqb (trim (or_empty o)) [] = false.
Proof.
  intros -> Hb. simpl or_empty. rewrite (str_eqb_neq _ _ Hb).
  destruct b as [| c r]; [exfalso; apply Hb; reflexivity | reflexivity].
Qed.

(** X18. A copy that throws ends the run there: the records after it are
    not looked at and [filterAndCopy] returns no report but throws the
    same error. *)
Theorem copy_failure_aborts_the_run (outRoot : jsstring)
    (input : FilterAndCopyInput) (b : jsstring) (w w1 w2 w3 : world)
    (pre post : list ExifData) (it : ExifData) (st : LoopState)
    (e : jsstring) :
  let outDir :=
    path_join outRoot
      (todayKST w ++ js "_" ++ promptSlug (original_prompt input)) in
  base_dir input = Some b -> trim b <> [] ->
  mkdir outDir w = Ok w1 ->
  exiftoolIndex b w1 = Ok (pre ++ it :: post, w2) ->
  loop input outDir pre initial_state w2 = Ok (st, w3) ->
  loop_body input outDir it st w3 = Throw e ->
  filterAndCopy outRoot input w = Throw e.
Proof.
  intros outDir Hb Hne Hmk Hex Hpre Hit. unfold filterAndCopy.
  rewrite (base_dir_given _ _ Hb Hne). fold outDir.
  rewrite Hmk, Hb. simpl or_empty. rewrite Hex, loop_app, Hpre.
  simpl. rewrite Hit. reflexivity.
Qed.

Lemma loop_keeps input outDir items : forall st w st' w',
  loop input outDir items st w = Ok (st', w') ->
  exists kept,
    subseq kept items
    /\ Forall (fun it => eligible input it = true) kept
    /\ st_files st' = st_files st ++ map (destination outDir) kept
    /\ st_matched st' = (st_matched st + length kept)%nat
    /\ (kept = [] -> w' = w).
Proof.
  induction items as [| it rest IH]; simpl; intros st w st' w' H.
  - inversion H; subst. exists []. repeat split; auto.
    + constructor.
    + simpl. rewrite app_nil_r. reflexivity.
  - destruct (loop_body input outDir it st w) as [[st1 w1] | e] eqn:Hb;
      [| discriminate].
    destruct (IH _ _ _ _ H) as (kept & Hsub & Hel & Hf & Hm & Hw).
    destruct (loop_body_cases input outDir it st w)
      as [(He & Hs & Hb') | [_ (st0 & Hb' & Hm0 & Hf0)]];
      rewrite Hb' in Hb.
    + destruct (copyOne _ _ w) as [wc | ec]; [| discriminate].
      inversion Hb; subst st1 w1; clear Hb.
      exists (it :: kept). repeat split.
      * apply subseq_keep. exact Hsub.
      * constructor; assumption.
      * rewrite Hf. simpl. rewrite <- app_assoc. reflexivity.
      * rewrite Hm. simpl. lia.
      * discriminate.
    + inversion Hb; subst st0 w1; clear Hb.
      exists kept. repeat split; auto.
      * apply subseq_skip. exact Hsub.
      * rewrite Hf, Hf0. reflexivity.
      * rewrite Hm, Hm0. reflexivity.
Qed.

(** X19. The files of a report are, in the order of the records, the
    destinations [path.join(output_dir, path.basename(src))] of some of the
    records the extraction step gave, each of them eligible: with a time
    stamp that parses, skipped by no block and with a source path; and
    [matched] is their number. *)
Theorem files_follow_the_records (outRoot : jsstring)
    (input : FilterAndCopyInput) (w : world) (rep : MatchReport) (w' : world) :
  filterAndCopy outRoot input w = Ok (rep, w') ->
  exists w1 items w2 kept,
    mkdir (output_dir rep) w = Ok w1
    /\ exiftoolIndex (or_empty (base_dir input)) w1 = Ok (items, w2)
    /\ subseq kept items
    /\ Forall (fun it => eligible input it = true) kept
    /\ files rep = map (destination (output_dir rep)) kept
    /\ matched rep = length kept.
Proof.
  intro H.
  destruct (filterAndCopy_run _ _ _ _ _ H)
    as (w1 & items & w2 & st & Hmk & Hex & Hl & Hrep).
  destruct (loop_keeps _ _ _ _ _ _ _ Hl) as (kept & Hsub & Hel & Hf & Hm & _).
  exists w1, items, w2, kept. rewrite Hrep. simpl.
  repeat split; assumption.
Qed.

(** X20. A run that matches nothing copies nothing: the world it leaves is
    the world as it was after the extraction step. *)
Theorem no_match_leaves_the_world (outRoot : jsstring)
    (input : FilterAndCopyInput) (w : world) (rep : MatchReport) (w' : world) :
  filterAndCopy outRoot input w = Ok (rep, w') ->
  matched rep = 0%nat ->
  files rep = []
  /\ exists w1 items,
       mkdir (output_dir rep) w = Ok w1
       /\ exiftoolIndex (or_empty (base_dir input)) w1 = Ok (items, w').
Proof.
  intros H Hz.
  destruct (filterAndCopy_run _ _ _ _ _ H)
    as (w1 & items & w2 & st & Hmk & Hex & Hl & Hrep).
  destruct (loop_keeps _ _ _ _ _ _ _ Hl) as (kept & _ & _ & Hf & Hm & Hw).
  rewrite Hrep in Hz |- *. simpl in *.
  assert (kept = []) by (destruct kept; [reflexivity | simpl in Hm; lia]).
  subst kept. rewrite (Hw eq_refl). split; [exact Hf |].
  exists w1, items. auto.
Qed.

End Run.

Lemma filterAndCopy_requires_base_dir_witness :
  filterAndCopy (P := Sim.platform) (js "/out") Sim.blank_base_dir
    Sim.sample_world
  = Throw (js "base_dir required").
Proof.
  apply (filterAndCopy_requires_base_dir (P := Sim.platform)).
  right. exists (js "  "). split; reflexivity.
Defined.

Lemma copy_failure_aborts_the_run_witness :
  filterAndCopy (P := Sim.platform) (js "/out") (Sim.no_filter "x")
    Sim.read_only_world
  = Throw (js "copyFile failed").
Proof.
  apply (copy_failure_aborts_the_run (P := Sim.platform) (js "/out")
           (Sim.no_filter "x") (js "/photos") Sim.read_only_world
           Sim.read_only_world Sim.read_only_world Sim.read_only_world []
           [Sim.photo "/photos/b.jpg" "not a date";
            Sim.photo "/photos/gone.jpg" "2024:01:15T10:00"]
           (Sim.photo "/photos/a.jpg" "2024:01:15 10:00:00")
           initial_state (js "copyFile failed"));
    try (vm_compute; reflexivity).
  discriminate.
Defined.

Lemma files_follow_the_records_witness :
  exists w1 items w2 kept,
    mkdir (Platform := Sim.platform) (output_dir Sim.sample_report)
      Sim.sample_world = Ok w1
    /\ exiftoolIndex (or_empty (base_dir (Sim.no_filter "Seoul trip: day 1!")))
         w1 = Ok (items, w2)
    /\ subseq kept items
    /\ Forall (fun it => eligible (P := Sim.platform)
                           (Sim.no_filter "Seoul trip: day 1!") it = true)
         kept
    /\ files Sim.sample_report
       = map (destination (P := Sim.platform) (output_dir Sim.sample_report))
           kept
    /\ matched Sim.sample_report = length kept.
Proof.
  apply (files_follow_the_records (P := Sim.platform) (js "/out")
           (Sim.no_filter "Seoul trip: day 1!") Sim.sample_world
           Sim.sample_report Sim.sample_world_after).
  vm_compute. reflexivity.
Defined.

Lemma no_match_leaves_the_world_witness :
  files Sim.empty_report = []
  /\ exists w1 items,
       mkdir (Platform := Sim.platform) (output_dir Sim.empty_report)
         Sim.sample_world = Ok w1
       /\ exiftoolIndex (or_empty (base_dir Sim.year_2025)) w1
          = Ok (items, Sim.sample_world).
Proof.
  apply (no_match_leaves_the_world (P := Sim.platform) (js "/out")
           Sim.year_2025 Sim.sample_world Sim.empty_report Sim.sample_world).
  - vm_compute. reflexivity.
  - reflexivity.
Defined.

(* ================================================================= *)
(** ** The output of the extraction tool *)

Lemma startsWith_nil s : startsWith s [] = true.
Proof. destruct s; reflexivity. Qed.

Lemma head_is_json c r :
  negb (truthy (Some (c :: r)))
  || negb (startsWith (c :: r) [91%N] || startsWith (c :: r) [123%N])
  = negb ((c =? 91)%N || (c =? 123)%N).
Proof.
  cbn [truthy negb orb startsWith].
  rewrite startsWith_nil, !andb_true_r. reflexivity.
Qed.

Lemma exiftoolIndex_body_ran JSON_parse stdout :
  exiftoolIndex_body JSON_parse (ExecaOk stdout)
  = match dropWhile is_space stdout with
    | [] => Throw (parse_failed [])
    | c :: r =>
        if (c =? 91)%N || (c =? 123)%N then
          match JSON_parse (c :: r) with
          | Throw message => Throw (exiftool_error message [])
          | Ok (JsonArray items) => Ok items
          | Ok (JsonOther item) => Ok [item]
          end
        else Throw (parse_failed (c :: r))
    end.
Proof.
  unfold exiftoolIndex_body. cbv zeta.
  destruct (dropWhile is_space stdout) as [| c r]; [reflexivity |].
  rewrite head_is_json.
  destruct ((c =? 91)%N || (c =? 123)%N); reflexivity.
Qed.

Lemma exiftool_error_prefix message stderr :
  startsWith (exiftool_error message stderr) (js "exiftool error: ") = true.
Proof.
  unfold exiftool_error.
  change (js "exiftool error: " ++ message ++ js " stderr: " ++ stderr)
    with ([101; 120; 105; 102; 116; 111; 111; 108; 32; 101; 114; 114; 111;
           114; 58; 32]%N ++ (message ++ js " stderr: " ++ stderr)).
  change (js "exiftool error: ")
    with [101; 120; 105; 102; 116; 111; 111; 108; 32; 101; 114; 114; 111;
          114; 58; 32]%N.
  cbn [app startsWith N.eqb Pos.eqb andb]. apply startsWith_nil.
Qed.

(** X21. [exiftoolIndex] returns records exactly when the tool ran, its
    output begins, after white space, with a bracket or a brace, and
    [JSON.parse] accepts it: an array gives its elements, anything else
    one record.  An output that is empty or begins otherwise is refused
    with [exiftool JSON parse failed] whatever [JSON.parse] would say, so
    a directory for which the tool prints nothing is an error and not an
    empty list; and every error is thrown as an [exiftool error]. *)
Theorem exiftoolIndex_body_result (JSON_parse : jsstring -> result Json)
    (run : Execa) :
  (forall items,
      exiftoolIndex_body JSON_parse run = Ok items <->
      exists stdout c r,
        run = ExecaOk stdout
        /\ dropWhile is_space stdout = c :: r
        /\ (c = 91%N \/ c = 123%N)
        /\ (JSON_parse (c :: r) = Ok (JsonArray items)
            \/ exists item, JSON_parse (c :: r) = Ok (JsonOther item)
                            /\ items = [item]))
  /\ (forall stdout,
         run = ExecaOk stdout ->
         (forall c r, dropWhile is_space stdout = c :: r ->
                      c <> 91%N /\ c <> 123%N) ->
         exiftoolIndex_body JSON_parse run
         = Throw (exiftool_error
                    (js "exiftool JSON parse failed: out(head): "
                     ++ firstn 200 (dropWhile is_space stdout)) []))
  /\ (forall m, exiftoolIndex_body JSON_parse run = Throw m ->
                startsWith m (js "exiftool error: ") = true).
Proof.
  split; [| split].
  - intro items. destruct run as [stdout | message stderr].
    2: { split; [discriminate | intros (? & ? & ? & H & _); discriminate]. }
    rewrite exiftoolIndex_body_ran.
    destruct (dropWhile is_space stdout) as [| c r] eqn:Ed.
    { split; [discriminate |].
      intros (s' & c & r & E & Hd & _). injection E as <-. congruence. }
    destruct ((c =? 91)%N || (c =? 123)%N) eqn:Eh.
    + assert (Hc : c = 91%N \/ c = 123%N).
      { apply orb_true_iff in Eh. rewrite !N.eqb_eq in Eh. exact Eh. }
      split.
      * intro H. exists stdout, c, r.
        split; [reflexivity |]. split; [exact Ed |]. split; [exact Hc |].
        destruct (JSON_parse (c :: r)) as [[its | item] | m].
        -- left. congruence.
        -- right. exists item. split; [reflexivity | congruence].
        -- discriminate H.
      * intros (s' & c' & r' & E & Hd & _ & Hj).
        injection E as <-. rewrite Ed in Hd. injection Hd as <- <-.
        destruct Hj as [Hj | [item' [Hj ->]]]; rewrite Hj; reflexivity.
    + split; [discriminate |].
      intros (s' & c' & r' & E & Hd & Hc & _).
      injection E as <-. rewrite Ed in Hd. injection Hd as <- <-.
      apply orb_false_iff in Eh. rewrite !N.eqb_neq in Eh.
      destruct Hc; tauto.
  - intros stdout -> Hhead. rewrite exiftoolIndex_body_ran.
    destruct (dropWhile is_space stdout) as [| c r] eqn:Ed; [reflexivity |].
    destruct (Hhead c r eq_refl) as [Nb Nc].
    apply N.eqb_neq in Nb, Nc. rewrite Nb, Nc. reflexivity.
  - intros m H. destruct run as [stdout | message stderr].
    + rewrite exiftoolIndex_body_ran in H.
      destruct (dropWhile is_space stdout) as [| c r].
      * injection H as <-. apply exiftool_error_prefix.
      * destruct ((c =? 91)%N || (c =? 123)%N).
        -- destruct (JSON_parse (c :: r)) as [[its | item] | m'];
             try discriminate H.
           injection H as <-. apply exiftool_error_prefix.
        -- injection H as <-. apply exiftool_error_prefix.
    + simpl in H. injection H as <-. apply exiftool_error_prefix.
Qed.

Lemma exiftoolIndex_body_result_witness :
  exiftoolIndex_body (fun _ => Ok (JsonArray [])) (ExecaOk (js "  "))
  = Throw (js "exiftool error: exiftool JSON parse failed: out(head):  stderr: ").
Proof.
  apply (proj1 (proj2 (exiftoolIndex_body_result
                         (fun _ => Ok (JsonArray [])) (ExecaOk (js "  "))))
           (js "  ") eq_refl).
  intros c r H. discriminate H.
Defined.

(* ================================================================= *)
(** ** expandTilde *)

(** X22. [expandTilde] trims its argument.  Nothing, or white space only,
    gives the empty string; a lone tilde gives the home directory; a
    tilde and a slash give [path.join] of the home directory and what
    follows them; anything else is returned trimmed and unchanged, also a
    path that begins with a tilde and a user name. *)
Theorem expandTilde_cases {P : Platform} (homedir : jsstring)
    (p : option jsstring) :
  (trim (or_empty p) = [] -> expandTilde homedir p = [])
  /\ (trim (or_empty p) = js "~" -> expandTilde homedir p = homedir)
  /\ (forall rest, trim (or_empty p) = js "~/" ++ rest ->
                   expandTilde homedir p = path_join homedir rest)
  /\ (forall c r, trim (or_empty p) = c :: r -> c <> 126%N ->
                  expandTilde homedir p = c :: r)
  /\ (forall c r, trim (or_empty p) = 126%N :: c :: r -> c <> 47%N ->
                  expandTilde homedir p = 126%N :: c :: r).
Proof.
  unfold expandTilde. cbv zeta. repeat split.
  - intros ->. reflexivity.
  - intros ->. reflexivity.
  - intros rest ->. simpl. rewrite startsWith_nil.
    destruct rest; reflexivity.
  - intros c r -> Hc. apply N.eqb_neq in Hc.
    cbn [str_eqb].
    change (js "~") with [126%N]. change (js "~/") with [126%N; 47%N].
    cbn [str_eqb startsWith]. rewrite Hc. reflexivity.
  - intros c r -> Hc. apply N.eqb_neq in Hc.
    change (js "~") with [126%N]. change (js "~/") with [126%N; 47%N].
    cbn [str_eqb startsWith N.eqb Pos.eqb andb]. rewrite Hc. reflexivity.
Qed.

Lemma expandTilde_cases_witness :
  expandTilde (P := Sim.platform) (js "/home/me") (Some (js " ~/Pictures "))
  = js "/home/me/Pictures"
  /\ expandTilde (P := Sim.platform) (js "/home/me") (Some (js "~bob/x"))
     = js "~bob/x".
Proof.
  split.
  - apply (proj1 (proj2 (proj2 (expandTilde_cases (P := Sim.platform)
                                  (js "/home/me")
                                  (Some (js " ~/Pictures ")))))
             (js "Pictures")).
    reflexivity.
  - apply (proj2 (proj2 (proj2 (proj2 (expandTilde_cases (P := Sim.platform)
                                         (js "/home/me")
                                         (Some (js "~bob/x"))))))
             98%N (js "ob/x")).
    + reflexivity.
    + discriminate.
Defined.

(* ================================================================= *)
(** ** The matcher as a whole *)

(** X23. The matcher is a plain conjunction: a record with a parsable time
    stamp passes exactly when each of the seven blocks lets it pass, and a
    filter with no dimension at all lets every such record pass. *)
Theorem matchRecord_is_conjunction {P : Platform}
    (input : FilterAndCopyInput) (it : ExifData) (p : ParsedDateTime) :
  (matchRecord input it p = None <->
   forall d, check_dimension d input it p = None)
  /\ ((forall d, absent d input) -> matchRecord input it p = None).
Proof.
  assert (Hiff : matchRecord input it p = None <->
                 forall d, check_dimension d input it p = None).
  { split.
    - intros H d. unfold matchRecord in H.
      destruct (check_date_range input p) eqn:E1; [discriminate |].
      destruct (check_time_of_day input p) eqn:E2; [discriminate |].
      destruct (check_iso input it) eqn:E3; [discriminate |].
      destruct (check_artist input it) eqn:E4; [discriminate |].
      destruct (check_camera input it) eqn:E5; [discriminate |].
      destruct (check_location input it) eqn:E6; [discriminate |].
      destruct d; assumption.
    - intro H. unfold matchRecord.
      rewrite (H DateRangeDim : check_date_range input p = None).
      rewrite (H TimeOfDayDim : check_time_of_day input p = None).
      rewrite (H IsoDim : check_iso input it = None).
      rewrite (H ArtistDim : check_artist input it = None).
      rewrite (H CameraDim : check_camera input it = None).
      rewrite (H LocationDim : check_location input it = None).
      exact (H AltitudeDim). }
  split; [exact Hiff |].
  intro Habs. apply Hiff. intro d. specialize (Habs d).
  destruct d; simpl in *.
  - unfold check_date_range. rewrite Habs. reflexivity.
  - unfold check_time_of_day. rewrite Habs. reflexivity.
  - unfold check_iso. rewrite Habs. reflexivity.
  - unfold check_artist. rewrite Habs. reflexivity.
  - unfold check_camera. rewrite Habs. reflexivity.
  - unfold check_location. rewrite Habs. reflexivity.
  - unfold check_altitude. rewrite Habs. reflexivity.
Qed.

Lemma matchRecord_is_conjunction_witness :
  matchRecord (P := Sim.platform) (Sim.no_filter "x") only_latitude
    {| dateStr := js "2024-01-15"; hhmm := js "10:00" |} = None.
Proof.
  apply (proj2 (matchRecord_is_conjunction (P := Sim.platform)
                  (Sim.no_filter "x") only_latitude
                  {| dateStr := js "2024-01-15"; hhmm := js "10:00" |})).
  intro d. destruct d; reflexivity.
Defined.
